(** * Shallow embedding of e-cyber-helper's encrypted configuration layer

    Sources embedded:
    - [src/common/config_manager.py] ([ConfigManager]): key management,
      Fernet envelope, YAML document store;
    - [src/common/sqlite_manager.py] ([SQLiteManager]): the relational
      adapter reusing [ConfigManager].

    Library code the repository calls (Fernet, PBKDF2HMAC, base64, the
    parts of PyYAML beyond plain one-line scalars, the keyring) is kept
    abstract in a [Runtime] record; the laws of those libraries that a
    theorem needs are explicit hypotheses of that theorem. *)

From Stdlib Require Import String Ascii List NArith ZArith Bool Lia.
Import ListNotations.
Open Scope string_scope.
Set Warnings "-register-all".

(* ------------------------------------------------------------------ *)
(** ** Python values and exceptions *)

(** Hashable Python values usable as dict keys (YAML keys, column
    names). *)
Inductive hkey : Type :=
| KNone
| KBool (b : bool)
| KInt (z : Z)
| KStr (s : string).

(** The Python values that reach [ConfigManager]: [None], [bool],
    [int], [str], [list] and [dict]. *)
Inductive pyval : Type :=
| PNone
| PBool (b : bool)
| PInt (z : Z)
| PStr (s : string)
| PList (l : list pyval)
| PDict (d : list (hkey * pyval)).

(** A raised Python exception: class name and message. *)
Inductive exn : Type :=
| Exc (cls : string) (msg : string).

Inductive result (A : Type) : Type :=
| Ok (a : A)
| Err (e : exn).
Arguments Ok {A} a.
Arguments Err {A} e.

Definition bind {A B} (r : result A) (k : A -> result B) : result B :=
  match r with Ok a => k a | Err e => Err e end.

Notation "x <- r ;; k" := (bind r (fun x => k))
  (at level 61, r at next level, right associativity).

(** [try: body / except Exception: handler]. *)
Definition try_except {A} (r : result A) (h : exn -> A) : A :=
  match r with Ok a => a | Err e => h e end.

(* ------------------------------------------------------------------ *)
(** ** Python dicts as insertion-ordered association lists *)

(** Python key equality: [True == 1] and [False == 0] hash and compare
    equal, so they denote the same dict slot. *)
Definition key_norm (k : hkey) : hkey :=
  match k with
  | KBool b => KInt (if b then 1 else 0)%Z
  | _ => k
  end.

Definition key_eqb (a b : hkey) : bool :=
  match key_norm a, key_norm b with
  | KNone, KNone => true
  | KInt x, KInt y => Z.eqb x y
  | KStr x, KStr y => String.eqb x y
  | _, _ => false
  end.

Definition dict (V : Type) := list (hkey * V).

(** [d.get(k)] *)
Fixpoint dict_get {V} (d : dict V) (k : hkey) : option V :=
  match d with
  | [] => None
  | (k', v) :: d' => if key_eqb k k' then Some v else dict_get d' k
  end.

(** [d[k] = v]: an equal key keeps its slot and its original key object,
    a new key is appended. *)
Fixpoint dict_set {V} (d : dict V) (k : hkey) (v : V) : dict V :=
  match d with
  | [] => [(k, v)]
  | (k', v') :: d' =>
      if key_eqb k k' then (k', v) :: d' else (k', v') :: dict_set d' k v
  end.

(** [{**d, **e}]: copy of [d], then every item of [e] assigned in order. *)
Definition dict_update {V} (d e : dict V) : dict V :=
  fold_left (fun acc kv => dict_set acc (fst kv) (snd kv)) e d.

(** A dict comprehension [{k: f(v) for k, v in items}]. *)
Definition dict_comp {V W} (f : V -> W) (items : dict V) : dict W :=
  dict_update [] (map (fun kv => (fst kv, f (snd kv))) items).

(** Keys pairwise distinct under Python equality: every dict is so. *)
Fixpoint dict_nodup {V} (d : dict V) : Prop :=
  match d with
  | [] => True
  | (k, _) :: d' => dict_get d' k = None /\ dict_nodup d'
  end.

(* ------------------------------------------------------------------ *)
(** ** [str(int)]: decimal rendering *)

Definition digit_char (n : nat) : ascii := ascii_of_nat (48 + n).

(** Digits of a positive number, most significant first; [fuel] bounds
    the number of digits. *)
Fixpoint digits_rev (fuel : nat) (n : N) : string :=
  match fuel with
  | O => ""
  | S f =>
      if N.eqb n 0 then ""
      else digits_rev f (N.div n 10)
           ++ String (digit_char (N.to_nat (N.modulo n 10))) ""
  end.

Definition str_of_N (n : N) : string :=
  if N.eqb n 0 then "0" else digits_rev (N.to_nat n) n.

(** Python's [str(z)] for an [int]. *)
Definition str_of_Z (z : Z) : string :=
  if Z.ltb z 0 then "-" ++ str_of_N (Z.to_N (- z)) else str_of_N (Z.to_N z).


(* ------------------------------------------------------------------ *)
(** ** PyYAML's [safe_load] on one-line plain scalars

    PyYAML resolves a plain scalar by its implicit resolvers (YAML 1.1).
    Modelled exactly here: the empty document ([None]), canonical
    decimal integers (an optional minus sign, then [0] or a nonzero
    digit followed by digits) ([int]), and plain scalars
    that start with a letter and use only [A-Za-z0-9_=-] (the Fernet
    token alphabet), which resolve to [bool] for the YAML 1.1 boolean
    words, to [None] for the null words and to [str] otherwise. Every
    other document is left to the runtime ([yaml_other]). *)

Definition is_digit (c : ascii) : bool :=
  let n := nat_of_ascii c in Nat.leb 48 n && Nat.leb n 57.

Definition is_letter (c : ascii) : bool :=
  let n := nat_of_ascii c in
  (Nat.leb 65 n && Nat.leb n 90) || (Nat.leb 97 n && Nat.leb n 122).

Fixpoint all_chars (p : ascii -> bool) (s : string) : bool :=
  match s with
  | EmptyString => true
  | String c r => p c && all_chars p r
  end.

Definition canonical_decimal (s : string) : bool :=
  match s with
  | String c r =>
      is_digit c && all_chars is_digit r && (negb (Ascii.eqb c "0") || String.eqb r "")
  | EmptyString => false
  end.

Fixpoint digits_val (s : string) (acc : N) : N :=
  match s with
  | EmptyString => acc
  | String c r => digits_val r (acc * 10 + N.of_nat (nat_of_ascii c - 48))
  end.

Definition plain_int (s : string) : option Z :=
  match s with
  | String c r =>
      if Ascii.eqb c "-"
      then if canonical_decimal r then Some (- Z.of_N (digits_val r 0))%Z else None
      else if canonical_decimal s then Some (Z.of_N (digits_val s 0)) else None
  | EmptyString => None
  end.

Definition is_token_char (c : ascii) : bool :=
  is_letter c || is_digit c || Ascii.eqb c "_" || Ascii.eqb c "=" || Ascii.eqb c "-".

Definition plain_word (s : string) : bool :=
  match s with
  | String c r => is_letter c && all_chars is_token_char r
  | EmptyString => false
  end.

Definition yaml_true_words : list string :=
  ["yes"; "Yes"; "YES"; "true"; "True"; "TRUE"; "on"; "On"; "ON"].
Definition yaml_false_words : list string :=
  ["no"; "No"; "NO"; "false"; "False"; "FALSE"; "off"; "Off"; "OFF"].
Definition yaml_null_words : list string := ["null"; "Null"; "NULL"].

Definition resolve_word (s : string) : pyval :=
  if existsb (String.eqb s) yaml_true_words then PBool true
  else if existsb (String.eqb s) yaml_false_words then PBool false
  else if existsb (String.eqb s) yaml_null_words then PNone
  else PStr s.

(* ------------------------------------------------------------------ *)
(** ** Library code the repository calls *)

(** Keyword arguments of [PBKDF2HMAC(...)]. *)
Record PBKDF2HMAC : Type := {
  algorithm : string;
  length : nat;
  salt : string;
  iterations : Z }.

Record Runtime : Type := {
  (** [Fernet(key).encrypt(plaintext)]; the [nat] indexes the random
      draw (IV and timestamp) the call consumes. *)
  fernet_encrypt : string -> nat -> string -> string;
  (** [Fernet(key).decrypt(token)]: [None] is [InvalidToken]. *)
  fernet_decrypt : string -> string -> option string;
  (** [yaml.safe_load] on documents outside the modelled plain
      scalars; [None] is a [YAMLError]. *)
  yaml_other : string -> option pyval;
  (** [yaml.dump] of a [list] or [dict]. *)
  yaml_dump : pyval -> string;
  (** [str()] of a [list] or [dict]. *)
  py_repr : pyval -> string;
  (** Contents of the backing YAML file, [yaml.safe_load] on it
      ([None]: I/O or YAML error) and [yaml.safe_dump] of a dict. *)
  Doc : Type;
  doc_load : Doc -> option pyval;
  doc_dump : dict pyval -> Doc;
  (** [PBKDF2HMAC(...).derive(password.encode())] *)
  kdf_derive : PBKDF2HMAC -> string -> string;
  (** [base64.urlsafe_b64encode], [base64.b64encode] and
      [base64.b64decode] ([Err]: [binascii.Error]); [bytes.decode()]
      ([Err]: [UnicodeDecodeError]). *)
  urlsafe_b64encode : string -> string;
  b64encode : string -> string;
  b64decode : string -> result string;
  utf8_decode : string -> result string }.

Section ConfigManager.
Variable R : Runtime.

(** [yaml.safe_load(s)] for a string document. *)
Definition yaml_safe_load (s : string) : option pyval :=
  if String.eqb s "" then Some PNone
  else match plain_int s with
       | Some z => Some (PInt z)
       | None => if plain_word s then Some (resolve_word s) else yaml_other R s
       end.

(** Python's [str(value)]. *)
Definition py_str (v : pyval) : string :=
  match v with
  | PNone => "None"
  | PBool true => "True"
  | PBool false => "False"
  | PInt z => str_of_Z z
  | PStr s => s
  | PList _ | PDict _ => py_repr R v
  end.

(** [ConfigManager._encrypt(self, data)], with [self.key = key] and the
    next random draw [n]; returns the result and the next draw. *)
Definition _encrypt (key : string) (n : nat) (data : pyval) : pyval * nat :=
  let plain :=
    match data with
    | PList _ | PDict _ => Ok (yaml_dump R data)
    | PStr s => Ok s
    | PBool _ | PInt _ => Ok (py_str data)   (* bool is a subclass of int *)
    | PNone => Err (Exc "ValueError" "Unsupported data type: <class 'NoneType'>")
    end in
  match plain with
  | Ok p => (PStr (fernet_encrypt R key n p), S n)
  | Err _ => (data, n)
  end.

(** The inner [try: return yaml.safe_load(decrypted_data) except
    yaml.YAMLError: return decrypted_data] of [_decrypt]. *)
Definition parse_or_raw (decrypted_data : string) : pyval :=
  match yaml_safe_load decrypted_data with
  | Some v => v
  | None => PStr decrypted_data
  end.

(** [ConfigManager._decrypt(self, data)]: a non-[str] argument fails
    on [data.encode()] and is returned as it is. *)
Definition _decrypt (key : string) (data : pyval) : pyval :=
  match data with
  | PStr s =>
      match fernet_decrypt R key s with
      | Some decrypted_data => parse_or_raw decrypted_data
      | None => data
      end
  | _ => data
  end.

End ConfigManager.

(* ------------------------------------------------------------------ *)
(** ** The YAML document store *)

Section DocumentStore.
Variable R : Runtime.

(** The file system as [ConfigManager] sees it: the file at
    [config_path] ([None]: [os.path.exists] is false), whether
    [open(config_path, 'w')] succeeds, and the next random draw. *)
Record World : Type := {
  file : option (Doc R);
  writable : bool;
  draws : nat }.

(** A dict comprehension whose value expression may raise. *)
Fixpoint dict_comp_r {V W} (f : V -> result W) (acc : dict W) (items : dict V)
  : result (dict W) :=
  match items with
  | [] => Ok acc
  | (k, v) :: items' => w <- f v ;; dict_comp_r f (dict_set acc k w) items'
  end.

(** The value expression of the second comprehension of [load_config]:
    [yaml.safe_load(value) if isinstance(value, str) else value]. *)
Definition reparse (value : pyval) : result pyval :=
  match value with
  | PStr s =>
      match yaml_safe_load R s with
      | Some v => Ok v
      | None => Err (Exc "YAMLError" "could not parse a value")
      end
  | _ => Ok value
  end.

(** Body of the [try] block of [load_config]. *)
Definition load_body (key : string) (d : Doc R) : result (dict pyval) :=
  match doc_load R d with
  | None => Err (Exc "YAMLError" "could not read or parse the file")
  | Some PNone => Ok []
  | Some (PDict config_data) =>
      let decrypted_data :=
        dict_comp (fun value => _decrypt R key (PStr (py_str R value))) config_data in
      dict_comp_r reparse [] decrypted_data
  | Some _ => Err (Exc "AttributeError" "object has no attribute 'items'")
  end.

(** [ConfigManager.load_config(self)] *)
Definition load_config (key : string) (w : World) : result (dict pyval) :=
  match file w with
  | None => Ok []
  | Some d => Ok (try_except (load_body key d) (fun _ => []))
  end.

(** [{key: self._encrypt(value) for key, value in str_data.items()}],
    threading the random draws. *)
Fixpoint encrypt_comp (key : string) (n : nat) (acc : dict pyval) (items : dict pyval)
  : dict pyval * nat :=
  match items with
  | [] => (acc, n)
  | (k, v) :: items' =>
      let (c, n') := _encrypt R key n v in
      encrypt_comp key n' (dict_set acc k c) items'
  end.

(** The value of [str_data] for a config value: [yaml.dump] for a
    [dict] or [list], [str] otherwise. *)
Definition str_data_of (value : pyval) : string :=
  match value with
  | PList _ | PDict _ => yaml_dump R value
  | _ => py_str R value
  end.

(** [ConfigManager.save_config(self, config_data)]: every exception is
    caught, so it always returns. *)
Definition save_config (key : string) (w : World) (config_data : dict pyval)
  : result World :=
  Ok (try_except
    (existing_data <- load_config key w ;;
     let merged_data := dict_update existing_data config_data in
     let str_data := dict_comp (fun value => PStr (str_data_of value)) merged_data in
     let (encrypted_data, n') := encrypt_comp key (draws w) [] str_data in
     if writable w
     then Ok {| file := Some (doc_dump R encrypted_data); writable := true; draws := n' |}
     else Err (Exc "PermissionError" "cannot open the file for writing"))
    (fun _ => w)).

(** [ConfigManager.update_config(self, key, value)] ([k] is the config
    key, [key] the encryption key). *)
Definition update_config (key : string) (w : World) (k : hkey) (value : pyval)
  : result World :=
  config_data <- load_config key w ;;
  save_config key w (dict_set config_data k value).

(** What [load_config] reads back for a config value that
    [save_config] stored: the Fernet plaintext is [str_data_of value],
    parsed once by [_decrypt] and once more by the second
    comprehension of [load_config]. *)
Definition read_back (value : pyval) : result pyval :=
  reparse (parse_or_raw R (str_data_of value)).

(** [ConfigManager.get_config(self, key)] *)
Definition get_config (key : string) (w : World) (k : hkey) : result (option pyval) :=
  config_data <- load_config key w ;; Ok (dict_get config_data k).

End DocumentStore.

(* ------------------------------------------------------------------ *)
(** ** Key management *)

(** The keyring entry [("your_system", "encryption_key")]. *)
Record Keyring : Type := { stored : option string }.

(** [uuid.UUID(int=node).bytes]: the 16 big-endian bytes of [node]. *)
Definition uuid_bytes (node : Z) : string :=
  fold_right
    (fun i acc =>
       String (ascii_of_N (Z.to_N (Z.land (Z.shiftr node (8 * (15 - Z.of_nat i))) 255))) acc)
    "" (seq 0 16).

Section KeyManagement.
Variable R : Runtime.

Definition kdf_params (salt0 : string) : PBKDF2HMAC :=
  {| algorithm := "SHA256"; length := 32; salt := salt0; iterations := 100000 |}.

(** [ConfigManager._generate_key(self, password, salt)]: [password.encode()]
    raises [AttributeError] unless [password] is a [str]. *)
Definition _generate_key (password : pyval) (salt0 : string) : result string :=
  match password with
  | PStr pw => Ok (urlsafe_b64encode R (kdf_derive R (kdf_params salt0) pw))
  | PNone => Err (Exc "AttributeError" "'NoneType' object has no attribute 'encode'")
  | _ => Err (Exc "AttributeError" "object has no attribute 'encode'")
  end.

(** [ConfigManager._get_or_create_key(self, password, reset_key)] with
    [self.salt = salt0]; returns the key and the keyring afterwards. An
    empty stored string is falsy and counts as no key. *)
Definition _get_or_create_key (kr : Keyring) (salt0 : string) (password : pyval)
  (reset_key : bool) : result (string * Keyring) :=
  let create :=
    new_key <- _generate_key password salt0 ;;
    Ok (new_key, {| stored := Some new_key |}) in
  match stored kr with
  | Some existing_key =>
      if negb (String.eqb existing_key "") && negb reset_key
      then Ok (existing_key, kr) else create
  | None => create
  end.

(** The key set up by [ConfigManager.__init__] on a host whose
    [uuid.getnode()] is [node]. *)
Definition init_key (kr : Keyring) (node : Z) (password : pyval) (reset_key : bool)
  : result (string * Keyring) :=
  _get_or_create_key kr (uuid_bytes node) password reset_key.

End KeyManagement.

(* ------------------------------------------------------------------ *)
(** ** The relational adapter ([SQLiteManager]) *)

(** Values [sqlite3] returns for a column ([NULL], [INTEGER], [TEXT],
    [BLOB] as [bytes]). *)
Inductive sqlval : Type :=
| SNull
| SInt (z : Z)
| SText (s : string)
| SBlob (b : string).

(** A value of a row returned by [get_data]: fetched as it is, or the
    result of [config_manager.decrypt]. *)
Inductive cell : Type :=
| Raw (v : sqlval)
| Dec (v : pyval).

(** Attributes of a [ConfigManager] instance the adapter may look up. *)
Inductive cm_attr : Type :=
| AEncrypt | ADecrypt | ALoadConfig | ASaveConfig | AUpdateConfig | AGetConfig
| AGetOrCreateKey | AGenerateKey | AConfigPath | ASalt | AKey | AFernet.

Definition cm_attrs : list (string * cm_attr) :=
  [("_encrypt", AEncrypt); ("_decrypt", ADecrypt); ("load_config", ALoadConfig);
   ("save_config", ASaveConfig); ("update_config", AUpdateConfig);
   ("get_config", AGetConfig); ("_get_or_create_key", AGetOrCreateKey);
   ("_generate_key", AGenerateKey); ("config_path", AConfigPath);
   ("salt", ASalt); ("key", AKey); ("fernet", AFernet)].

Definition attribute_error (name : string) : exn :=
  Exc "AttributeError" ("'ConfigManager' object has no attribute '" ++ name ++ "'").

(** [getattr(self.config_manager, name)] *)
Fixpoint lookup_attr (name : string) (attrs : list (string * cm_attr)) : result cm_attr :=
  match attrs with
  | [] => Err (attribute_error name)
  | (n, a) :: attrs' => if String.eqb name n then Ok a else lookup_attr name attrs'
  end.

Definition exn_msg (e : exn) : string := match e with Exc _ m => m end.

Section SQLiteManager.
Variable R : Runtime.
(** [self.config_manager.key] *)
Variable key : string.
(** The database file and [execute_query(query, params, commit=True)]. *)
Variable DB : Type.
Variable execute : DB -> string -> list sqlval -> result DB.

(** [self.config_manager.<name>(arg)] where the adapter expects the
    envelope method: only [_encrypt] and [_decrypt] are such methods. *)
Definition cm_encrypt_call (name : string) (n : nat) (arg : pyval) : result (pyval * nat) :=
  a <- lookup_attr name cm_attrs ;;
  match a with
  | AEncrypt => Ok (_encrypt R key n arg)
  | _ => Err (Exc "TypeError" "not the envelope method")
  end.

Definition cm_decrypt_call (name : string) (arg : pyval) : result pyval :=
  a <- lookup_attr name cm_attrs ;;
  match a with
  | ADecrypt => Ok (_decrypt R key arg)
  | _ => Err (Exc "TypeError" "not the envelope method")
  end.

(** [tuple(base64.b64encode(self.config_manager.encrypt(str(value)).encode())
    for value in data.values())] *)
Fixpoint encrypted_values (n : nat) (values : list pyval) {struct values}
  : result (list sqlval * nat) :=
  match values with
  | [] => Ok ([], n)
  | value :: values' =>
      c <- cm_encrypt_call "encrypt" n (PStr (py_str R value)) ;;
      match fst c with
      | PStr token =>
          rest <- encrypted_values (snd c) values' ;;
          Ok (SBlob (b64encode R token) :: fst rest, snd rest)
      | _ => Err (Exc "AttributeError" "object has no attribute 'encode'")
      end
  end.

Fixpoint join (sep : string) (l : list string) : string :=
  match l with
  | [] => ""
  | [x] => x
  | x :: l' => x ++ sep ++ join sep l'
  end.

(** [SQLiteManager.insert_data(self, table, data)]; errors are re-raised. *)
Definition insert_data (db : DB) (n : nat) (table : string) (data : list (string * pyval))
  : result (DB * nat) :=
  let columns := join ", " (map fst data) in
  let placeholders := join ", " (map (fun _ => "?") data) in
  vs <- encrypted_values n (map snd data) ;;
  let query := "INSERT INTO " ++ table ++ " (" ++ columns ++ ") VALUES ("
               ++ placeholders ++ ")" in
  db' <- execute db query (fst vs) ;;
  Ok (db', snd vs).

(** [self.config_manager.decrypt(base64.b64decode(value).decode())],
    with [self.config_manager.decrypt] passed as [decrypt]. *)
Definition decode_and_decrypt (decrypt : pyval -> result pyval) (b : string) : result pyval :=
  decoded <- b64decode R b ;;
  decoded_value <- utf8_decode R decoded ;;
  decrypt (PStr decoded_value).

(** One value of [_decrypt_rows]. *)
Definition decrypt_value (decrypt : pyval -> result pyval) (column : string) (value : sqlval)
  : result cell :=
  match value with
  | SBlob b =>
      match decode_and_decrypt decrypt b with
      | Ok v => Ok (Dec v)
      | Err e => Err (Exc "ValueError"
                        ("Error decrypting value for " ++ column ++ ": " ++ exn_msg e))
      end
  | _ => Ok (Raw value)
  end.

(** The inner loop over [zip(column_names, row)]. *)
Fixpoint decrypt_row (decrypt : pyval -> result pyval) (decrypted_row : dict cell)
  (column_names : list string) (row : list sqlval) : result (dict cell) :=
  match column_names, row with
  | c :: cs, v :: vs =>
      x <- decrypt_value decrypt c v ;;
      decrypt_row decrypt (dict_set decrypted_row (KStr c) x) cs vs
  | _, _ => Ok decrypted_row
  end.

Fixpoint decrypt_rows_with (decrypt : pyval -> result pyval) (column_names : list string)
  (rows : list (list sqlval)) : result (list (dict cell)) :=
  match rows with
  | [] => Ok []
  | row :: rows' =>
      d <- decrypt_row decrypt [] column_names row ;;
      ds <- decrypt_rows_with decrypt column_names rows' ;;
      Ok (d :: ds)
  end.

(** [SQLiteManager._decrypt_rows(self, column_names, rows)] *)
Definition _decrypt_rows (column_names : list string) (rows : list (list sqlval))
  : result (list (dict cell)) :=
  decrypt_rows_with (cm_decrypt_call "decrypt") column_names rows.

End SQLiteManager.

(* ------------------------------------------------------------------ *)
(** ** Laws of the libraries *)

(** Fernet: a token decrypts, under the key it was made with, to its
    plaintext. *)
Definition fernet_correct (R : Runtime) : Prop :=
  forall k n m, fernet_decrypt R k (fernet_encrypt R k n m) = Some m.

(** [yaml.safe_load] reads back what [yaml.safe_dump] wrote for a dict
    of strings (the order of the keys may change: [safe_dump] sorts
    them). *)
Definition doc_roundtrip (R : Runtime) : Prop :=
  forall d : dict pyval,
    dict_nodup d -> Forall (fun kv => exists s, snd kv = PStr s) d ->
    exists d', doc_load R (doc_dump R d) = Some (PDict d') /\ dict_nodup d' /\
               forall k, dict_get d' k = dict_get d k.

(** A PBKDF2 key, base64-encoded, is never empty (it has 44
    characters). *)
Definition derived_key_nonempty (R : Runtime) : Prop :=
  forall p pw, urlsafe_b64encode R (kdf_derive R p pw) <> "".

(* ------------------------------------------------------------------ *)
(** ** A concrete runtime for evaluating the model

    Its Fernet prefixes the plaintext with the key; its [yaml_other]
    reports a [YAMLError], as PyYAML does on the documents evaluated
    below (["x: y: z"]: mapping values are not allowed there); its file
    holds the parsed document. *)

Fixpoint strip_prefix (p s : string) : option string :=
  match p, s with
  | EmptyString, _ => Some s
  | String c p', String c' s' => if Ascii.eqb c c' then strip_prefix p' s' else None
  | String _ _, EmptyString => None
  end.

Definition sample_runtime : Runtime := {|
  fernet_encrypt := fun k _ m => k ++ ":" ++ m;
  fernet_decrypt := fun k t => strip_prefix (k ++ ":") t;
  yaml_other := fun _ => None;
  yaml_dump := fun _ => "[]";
  py_repr := fun _ => "[]";
  Doc := option pyval;
  doc_load := fun d => d;
  doc_dump := fun d => Some (PDict d);
  kdf_derive := fun _ pw => "key-" ++ pw;
  urlsafe_b64encode := fun s => s;
  b64encode := fun s => s;
  b64decode := fun s => Ok s;
  utf8_decode := fun s => Ok s |}.

(** A world whose file holds the YAML mapping [items]. *)
Definition doc_world (items : dict pyval) : World sample_runtime :=
  Build_World sample_runtime (Some (Some (PDict items))) true 0.

(** The store [{a: 1}] under the key ["k"] of [sample_runtime]. *)
Definition store_a1 : World sample_runtime := doc_world [(KStr "a", PStr "k:1")].

(* ------------------------------------------------------------------ *)
(** ** [LogManager]: the log configuration kept in the config store *)

(** Python truthiness of a config value ([if not log_config]). *)
Definition py_truthy (v : pyval) : bool :=
  match v with
  | PNone => false
  | PBool b => b
  | PInt z => negb (Z.eqb z 0)
  | PStr s => negb (String.eqb s "")
  | PList l => match l with [] => false | _ => true end
  | PDict d => match d with [] => false | _ => true end
  end.

(** [x in s] for two [str]: [x] occurs in [s] as a substring. *)
Fixpoint str_contains (x s : string) : bool :=
  String.prefix x s ||
  match s with
  | EmptyString => false
  | String _ s' => str_contains x s'
  end.

(** [key in log_config] for a [str] key: key membership for a [dict],
    element equality for a [list], substring for a [str]; [None], [bool]
    and [int] are not iterable. *)
Definition py_contains (container : pyval) (x : string) : result bool :=
  match container with
  | PDict d => Ok (match dict_get d (KStr x) with Some _ => true | None => false end)
  | PList l => Ok (existsb (fun v => match v with PStr s => String.eqb s x | _ => false end) l)
  | PStr s => Ok (str_contains x s)
  | PNone => Err (Exc "TypeError" "argument of type 'NoneType' is not iterable")
  | PBool _ => Err (Exc "TypeError" "argument of type 'bool' is not iterable")
  | PInt _ => Err (Exc "TypeError" "argument of type 'int' is not iterable")
  end.

Definition required_keys : list string := ["level"; "format"; "file_path"].

(** The loop of [_validate_log_config] over [keys]. *)
Fixpoint validate_keys (log_config : pyval) (keys : list string) : result unit :=
  match keys with
  | [] => Ok tt
  | key :: keys' =>
      b <- py_contains log_config key ;;
      if b then validate_keys log_config keys'
      else Err (Exc "ValueError" ("Log config must include a " ++ key ++ "."))
  end.

(** [LogManager._validate_log_config(self, log_config)] *)
Definition _validate_log_config (log_config : pyval) : result unit :=
  validate_keys log_config required_keys.

(** The default written by [_load_log_config]. *)
Definition default_log_items : dict pyval :=
  [(KStr "level", PStr "INFO");
   (KStr "format", PStr "%(asctime)s, %(name)s, %(hostname)s, %(process)d, %(thread)d, %(levelname)s, %(message)s");
   (KStr "file_path", PStr "app.log")].

Definition default_log_config : pyval := PDict default_log_items.

Section LogManagerStore.
Variable R : Runtime.

(** Lines 190-200 of [LogManager._load_log_config], run by
    [LogManager.__init__]: read [log_config], write the default when it
    is falsy, validate. Returns the world and the validated
    configuration; the [logging] setup that follows (lines 202-211)
    does not touch the config store. *)
Definition load_log_config_store (key : string) (w : World R) : result (World R * pyval) :=
  got <- get_config R key w (KStr "log_config") ;;
  let log_config := match got with Some v => v | None => PNone end in
  st <- (if py_truthy log_config then Ok (w, log_config)
         else w' <- update_config R key w (KStr "log_config") default_log_config ;;
              Ok (w', default_log_config)) ;;
  _ <- _validate_log_config (snd st) ;;
  Ok st.

End LogManagerStore.

(* ------------------------------------------------------------------ *)
(** ** More of [SQLiteManager] *)

Section SQLiteManagerMore.
Variable R : Runtime.
Variable key : string.
Variable DB : Type.
(** [execute_query(query, params, commit=True)], positional parameters. *)
Variable execute : DB -> string -> list sqlval -> result DB.
(** [[info[1] for info in self.execute_query(f"PRAGMA table_info({table})")]]:
    SQLite gives the column name as text at position 1. *)
Variable table_info : DB -> string -> result (list string).
(** [execute_query(query, params)] without commit, returning
    [fetchall()]; the parameters are named ([:k]). *)
Variable fetch : DB -> string -> list (string * sqlval) -> result (list (list sqlval)).

(** [SQLiteManager.update_data(self, table, data, conditions)]; the
    condition values are bound as they are. *)
Definition update_data (db : DB) (n : nat) (table : string) (data : list (string * pyval))
  (conditions : list (string * sqlval)) : result (DB * nat) :=
  let set_clause := join ", " (map (fun kv => fst kv ++ "=?") data) in
  vs <- encrypted_values R key n (map snd data) ;;
  let where_clause := join " AND " (map (fun kv => fst kv ++ "=?") conditions) in
  let query := "UPDATE " ++ table ++ " SET " ++ set_clause ++ " WHERE " ++ where_clause in
  db' <- execute db query (fst vs ++ map snd conditions) ;;
  Ok (db', snd vs).

(** [SQLiteManager.delete_data(self, table, conditions)] *)
Definition delete_data (db : DB) (table : string) (conditions : list (string * sqlval))
  : result DB :=
  let where_clause := join " AND " (map (fun kv => fst kv ++ "=?") conditions) in
  let query := "DELETE FROM " ++ table ++ " WHERE " ++ where_clause in
  execute db query (map snd conditions).

(** [SQLiteManager.get_data(self, table, conditions=None)]: [None] and
    an empty dict both mean no condition. *)
Definition get_data (db : DB) (table : string) (conditions : option (list (string * sqlval)))
  : result (list (dict cell)) :=
  column_names <- table_info db table ;;
  let conds := match conditions with Some c => c | None => [] end in
  let conditions_str := join " AND " (map (fun kv => fst kv ++ "=:" ++ fst kv) conds) in
  let query := "SELECT * FROM " ++ table ++ " "
               ++ (if String.eqb conditions_str "" then "" else "WHERE " ++ conditions_str) in
  rows <- fetch db query conds ;;
  _decrypt_rows R key column_names rows.

End SQLiteManagerMore.

(** Number of ['?'] in a string. *)
Fixpoint count_qmarks (s : string) : nat :=
  match s with
  | EmptyString => 0
  | String c s' => (if Ascii.eqb c "?" then 1 else 0) + count_qmarks s'
  end.

(** [int.from_bytes(b, 'big')], i.e. [uuid.UUID(bytes=b).int]. *)
Definition bytes_int (b : string) : Z :=
  fold_left (fun acc c => acc * 256 + Z.of_N (N_of_ascii c))%Z (list_ascii_of_string b) 0%Z.

(** A stand-in text for [yaml.dump(default_log_config)]: only
    [log_runtime] below reads it, and only its identity matters there. *)
Definition default_log_yaml : string :=
  "{file_path: app.log, format: '%(asctime)s, %(name)s, %(hostname)s, %(process)d, %(thread)d, %(levelname)s, %(message)s', level: INFO}".

(** [sample_runtime] with a YAML stand-in that also reads the two flow
    mappings below. *)
Definition log_runtime : Runtime := {|
  fernet_encrypt := fun k _ m => k ++ ":" ++ m;
  fernet_decrypt := fun k t => strip_prefix (k ++ ":") t;
  yaml_other := fun s =>
    if String.eqb s default_log_yaml
    then Some (PDict [(KStr "file_path", PStr "app.log");
                      (KStr "format", PStr "%(asctime)s, %(name)s, %(hostname)s, %(process)d, %(thread)d, %(levelname)s, %(message)s");
                      (KStr "level", PStr "INFO")])
    else if String.eqb s "{level: DEBUG}" then Some (PDict [(KStr "level", PStr "DEBUG")])
    else None;
  yaml_dump := fun _ => default_log_yaml;
  py_repr := fun _ => "[]";
  Doc := option pyval;
  doc_load := fun d => d;
  doc_dump := fun d => Some (PDict d);
  kdf_derive := fun _ pw => "key-" ++ pw;
  urlsafe_b64encode := fun s => s;
  b64encode := fun s => s;
  b64decode := fun s => Ok s;
  utf8_decode := fun s => Ok s |}.

(** A log configuration holding only a level. *)
Definition debug_log_world : World log_runtime :=
  Build_World log_runtime
    (Some (Some (PDict [(KStr "log_config", PStr "k:{level: DEBUG}")]))) true 0.

(** The store [{a: 1}] under the key ["k"] of [log_runtime]. *)
Definition log_a1_world : World log_runtime :=
  Build_World log_runtime (Some (Some (PDict [(KStr "a", PStr "k:1")]))) true 0.

(** [default_log_config] as YAML reads it back: keys in sorted order. *)
Definition default_log_items_sorted : dict pyval :=
  [(KStr "file_path", PStr "app.log");
   (KStr "format", PStr "%(asctime)s, %(name)s, %(hostname)s, %(process)d, %(thread)d, %(levelname)s, %(message)s");
   (KStr "level", PStr "INFO")].

(* ================================================================== *)
(** * Properties *)

Open Scope list_scope.

Example str_of_Z_samples :
  str_of_Z 0 = "0" /\ str_of_Z 30 = "30" /\ str_of_Z (-1207) = "-1207".
Proof. repeat split; reflexivity. Qed.

(* ------------------------------------------------------------------ *)
(** ** Python key equality and dict operations *)

Lemma key_eqb_refl : forall k, key_eqb k k = true.
Proof.
  intros [| [] | z | s]; unfold key_eqb; simpl;
    try apply Z.eqb_refl; try apply String.eqb_refl; reflexivity.
Qed.

Lemma key_eqb_sym : forall a b, key_eqb a b = key_eqb b a.
Proof.
  intros a b; unfold key_eqb.
  destruct (key_norm a) as [| ? | x | x], (key_norm b) as [| ? | y | y]; try reflexivity.
  - apply Z.eqb_sym.
  - apply String.eqb_sym.
Qed.

Lemma key_eqb_trans : forall a b c,
  key_eqb a b = true -> key_eqb b c = true -> key_eqb a c = true.
Proof.
  intros a b c; unfold key_eqb.
  destruct (key_norm a) as [| ? | x | x], (key_norm b) as [| ? | y | y],
           (key_norm c) as [| ? | u | u]; try discriminate; auto.
  - rewrite !Z.eqb_eq; congruence.
  - rewrite !String.eqb_eq; congruence.
Qed.

(** Equal keys address the same slot. *)
Lemma dict_get_congr : forall V (d : dict V) a b,
  key_eqb a b = true -> dict_get d a = dict_get d b.
Proof.
  intros V d a b Hab; induction d as [| [k' v'] d IH]; simpl; auto.
  destruct (key_eqb a k') eqn:E1, (key_eqb b k') eqn:E2; auto.
  - rewrite key_eqb_sym in Hab.
    rewrite (key_eqb_trans _ _ _ Hab E1) in E2; discriminate.
  - rewrite (key_eqb_trans _ _ _ Hab E2) in E1; discriminate.
Qed.

Lemma dict_get_set : forall V (d : dict V) k v k'',
  dict_get (dict_set d k v) k'' = if key_eqb k'' k then Some v else dict_get d k''.
Proof.
  intros V d k v k''; induction d as [| [k1 v1] d IH]; simpl.
  - destruct (key_eqb k'' k); reflexivity.
  - destruct (key_eqb k k1) eqn:E.
    + simpl. destruct (key_eqb k'' k1) eqn:E1, (key_eqb k'' k) eqn:E2; auto.
      * rewrite key_eqb_sym in E.
        rewrite (key_eqb_trans _ _ _ E1 E) in E2; discriminate.
      * rewrite (key_eqb_trans _ _ _ E2 E) in E1; discriminate.
    + simpl. rewrite IH.
      destruct (key_eqb k'' k1) eqn:E1, (key_eqb k'' k) eqn:E2; auto.
      rewrite key_eqb_sym in E2.
      rewrite (key_eqb_trans _ _ _ E2 E1) in E; discriminate.
Qed.

Lemma dict_set_nodup : forall V (d : dict V) k v,
  dict_nodup d -> dict_nodup (dict_set d k v).
Proof.
  intros V d k v; induction d as [| [k1 v1] d IH]; simpl; intros Hd.
  - auto.
  - destruct Hd as [H1 H2]. destruct (key_eqb k k1) eqn:E; simpl; split; auto.
    rewrite dict_get_set. rewrite key_eqb_sym, E. exact H1.
Qed.

Lemma dict_nodup_In_get : forall V (d : dict V) k v,
  dict_nodup d -> In (k, v) d -> dict_get d k = Some v.
Proof.
  intros V d k v; induction d as [| [k1 v1] d IH]; simpl; intros Hd Hin.
  - contradiction.
  - destruct Hd as [H1 H2]. destruct Hin as [Heq | Hin].
    + inversion Heq; subst. rewrite key_eqb_refl. reflexivity.
    + destruct (key_eqb k k1) eqn:E.
      * rewrite <- (dict_get_congr _ d _ _ E), (IH H2 Hin) in H1. discriminate.
      * auto.
Qed.

(** Assigning a dict's items in order overwrites only the keys they name. *)
Lemma dict_get_update : forall V (items acc : dict V) k,
  dict_nodup items ->
  dict_get (dict_update acc items) k =
  match dict_get items k with Some v => Some v | None => dict_get acc k end.
Proof.
  intros V items; induction items as [| [k1 v1] items IH]; intros acc k Hd; simpl.
  - reflexivity.
  - destruct Hd as [H1 H2]. rewrite IH by exact H2.
    destruct (key_eqb k k1) eqn:E.
    + rewrite (dict_get_congr _ items _ _ E), H1, dict_get_set, E. reflexivity.
    + destruct (dict_get items k); auto. rewrite dict_get_set, E. reflexivity.
Qed.

Lemma dict_update_nodup : forall V (items acc : dict V),
  dict_nodup acc -> dict_nodup (dict_update acc items).
Proof.
  intros V items; induction items as [| [k1 v1] items IH]; intros acc Hacc; simpl; auto.
  apply IH, dict_set_nodup, Hacc.
Qed.

Lemma dict_get_map : forall V W (f : V -> W) (d : dict V) k,
  dict_get (map (fun kv => (fst kv, f (snd kv))) d) k = option_map f (dict_get d k).
Proof.
  intros V W f d k; induction d as [| [k1 v1] d IH]; simpl; auto.
  destruct (key_eqb k k1); auto.
Qed.

Lemma dict_map_nodup : forall V W (f : V -> W) (d : dict V),
  dict_nodup d -> dict_nodup (map (fun kv => (fst kv, f (snd kv))) d).
Proof.
  intros V W f d; induction d as [| [k1 v1] d IH]; simpl; auto.
  intros [H1 H2]; split; auto. rewrite dict_get_map, H1; reflexivity.
Qed.

Lemma dict_comp_nodup : forall V W (f : V -> W) (d : dict V),
  dict_nodup (dict_comp f d).
Proof. intros; apply dict_update_nodup; simpl; auto. Qed.

Lemma dict_get_comp : forall V W (f : V -> W) (d : dict V) k,
  dict_nodup d -> dict_get (dict_comp f d) k = option_map f (dict_get d k).
Proof.
  intros V W f d k Hd; unfold dict_comp.
  rewrite dict_get_update by (apply dict_map_nodup; exact Hd).
  rewrite dict_get_map. destruct (dict_get d k); reflexivity.
Qed.

Lemma dict_get_app : forall V (a b : dict V) k,
  dict_get (a ++ b) k = match dict_get a k with Some x => Some x | None => dict_get b k end.
Proof.
  intros V a b k; induction a as [| [k1 v1] a IH]; simpl; auto.
  destruct (key_eqb k k1); auto.
Qed.

Lemma dict_set_app_absent : forall V (pre rest : dict V) k v,
  dict_get pre k = None -> dict_set (pre ++ rest) k v = pre ++ dict_set rest k v.
Proof.
  intros V pre rest k v; induction pre as [| [k1 v1] pre IH]; simpl; intros H; auto.
  destruct (key_eqb k k1); [discriminate |]. rewrite IH by exact H. reflexivity.
Qed.

Lemma dict_get_In_key : forall V (d : dict V) k,
  In k (map fst d) -> exists v, dict_get d k = Some v.
Proof.
  intros V d k; induction d as [| [k1 v1] d IH]; simpl; intros H; [contradiction |].
  destruct (key_eqb k k1) eqn:E; eauto.
  destruct H as [H | H]; auto. subst; rewrite key_eqb_refl in E; discriminate.
Qed.

Lemma dict_set_keys : forall V (d : dict V) k v,
  exists extra, map fst (dict_set d k v) = map fst d ++ extra.
Proof.
  intros V d k v; induction d as [| [k1 v1] d [extra IH]]; simpl.
  - exists [k]; reflexivity.
  - destruct (key_eqb k k1); simpl.
    + exists []; rewrite app_nil_r; reflexivity.
    + exists extra; rewrite IH; reflexivity.
Qed.

(** Re-assigning the items of a dict [e] over a dict whose keys are a
    prefix of [e]'s keys yields [e]. *)
Lemma dict_update_prefix : forall V (e pre old : dict V),
  dict_nodup e ->
  (forall k, In k (map fst e) -> dict_get pre k = None) ->
  (exists extra, map fst e = map fst old ++ extra) ->
  dict_update (pre ++ old) e = pre ++ e.
Proof.
  intros V e; induction e as [| [k v] e IH]; intros pre old Hnd Hpre [extra Hk].
  - simpl. destruct old as [| ? old]; [reflexivity | discriminate].
  - destruct Hnd as [H1 H2].
    change (dict_update (dict_set (pre ++ old) k v) e = pre ++ (k, v) :: e).
    assert (Hk0 : dict_get pre k = None) by (apply Hpre; left; reflexivity).
    assert (Hpre' : forall k', In k' (map fst e) -> dict_get (pre ++ [(k, v)]) k' = None).
    { intros k' Hin. rewrite dict_get_app, Hpre by (right; exact Hin). simpl.
      destruct (key_eqb k' k) eqn:E; auto.
      destruct (dict_get_In_key _ e k' Hin) as [x Hx].
      rewrite (dict_get_congr _ e _ _ E), H1 in Hx. discriminate. }
    destruct old as [| [k0 v0] old]; simpl in Hk.
    + rewrite dict_set_app_absent by exact Hk0. simpl.
      replace (pre ++ [(k, v)]) with ((pre ++ [(k, v)]) ++ []) by apply app_nil_r.
      rewrite (IH (pre ++ [(k, v)]) [] H2 Hpre').
      * rewrite <- app_assoc; reflexivity.
      * exists (map fst e); reflexivity.
    + inversion Hk; subst k0.
      rewrite dict_set_app_absent by exact Hk0. simpl. rewrite key_eqb_refl.
      replace (pre ++ (k, v) :: old) with ((pre ++ [(k, v)]) ++ old)
        by (rewrite <- app_assoc; reflexivity).
      rewrite (IH (pre ++ [(k, v)]) old H2 Hpre').
      * rewrite <- app_assoc; reflexivity.
      * exists extra; assumption.
Qed.

Lemma dict_update_set_self : forall V (d : dict V) k v,
  dict_nodup d -> dict_update d (dict_set d k v) = dict_set d k v.
Proof.
  intros V d k v Hd.
  apply (dict_update_prefix V (dict_set d k v) [] d).
  - apply dict_set_nodup, Hd.
  - reflexivity.
  - apply dict_set_keys.
Qed.

Lemma dict_comp_r_nodup : forall V W (f : V -> result W) items acc d,
  dict_nodup acc -> dict_comp_r f acc items = Ok d -> dict_nodup d.
Proof.
  intros V W f items; induction items as [| [k v] items IH]; simpl; intros acc d Hacc H.
  - inversion H; subst; exact Hacc.
  - destruct (f v) as [w | e]; simpl in H; [| discriminate].
    eapply IH; [apply dict_set_nodup, Hacc | exact H].
Qed.

(** [load_config] returns a dict. *)
Lemma load_config_nodup : forall R key w m,
  load_config R key w = Ok m -> dict_nodup m.
Proof.
  intros R key w m; unfold load_config.
  destruct (file R w) as [d |]; intros H; inversion H; subst; simpl; auto.
  unfold load_body, try_except.
  destruct (doc_load R d) as [[| | | | | items] |]; simpl; auto.
  destruct (dict_comp_r _ _ _) eqn:E; simpl; auto.
  eapply dict_comp_r_nodup; [| exact E]. simpl; auto.
Qed.

(** C7: [update_config(key, value)] and [save_config({key: value})] leave
    the same world: same document written, same random draws used. *)
Theorem update_config_is_save_config : forall R key w k v,
  update_config R key w k v = save_config R key w [(k, v)].
Proof.
  intros R key w k v. unfold update_config.
  destruct (load_config R key w) as [config_data | e] eqn:HL; simpl.
  - unfold save_config. rewrite HL. simpl.
    rewrite dict_update_set_self by (eapply load_config_nodup; exact HL).
    reflexivity.
  - unfold load_config in HL. destruct (file R w); discriminate.
Qed.

(* ------------------------------------------------------------------ *)
(** ** [str(int)] is read back by YAML as the same [int] *)

Lemma digits_val_app : forall s1 s2 acc,
  digits_val (s1 ++ s2)%string acc = digits_val s2 (digits_val s1 acc).
Proof. induction s1; simpl; auto. Qed.

Lemma all_chars_app : forall p s1 s2,
  all_chars p (s1 ++ s2)%string = all_chars p s1 && all_chars p s2.
Proof.
  intros p s1 s2; induction s1; simpl; auto. rewrite IHs1, andb_assoc; reflexivity.
Qed.

Lemma digit_char_val : forall d, d < 10 -> nat_of_ascii (digit_char d) - 48 = d.
Proof.
  intros d Hd; unfold digit_char. rewrite nat_ascii_embedding by lia. lia.
Qed.

Lemma digit_char_digit : forall d, d < 10 -> is_digit (digit_char d) = true.
Proof.
  intros d Hd; unfold is_digit, digit_char. rewrite nat_ascii_embedding by lia.
  apply andb_true_intro; split; apply Nat.leb_le; lia.
Qed.

Lemma digits_rev_zero : forall f, digits_rev f 0 = "".
Proof. destruct f; reflexivity. Qed.

Lemma N_mod_10_lt : forall n, N.to_nat (n mod 10) < 10.
Proof.
  intros n. assert (H := N.mod_lt n 10 ltac:(discriminate)). lia.
Qed.

Lemma digits_rev_val : forall f n,
  (n < 10 ^ N.of_nat f)%N -> digits_val (digits_rev f n) 0 = n.
Proof.
  induction f as [| f IH]; intros n Hn; simpl.
  - simpl in Hn. assert (n = 0%N) by lia. subst; reflexivity.
  - destruct (N.eqb_spec n 0) as [-> | Hnz]; [reflexivity |].
    rewrite digits_val_app. cbn [digits_val].
    rewrite IH.
    + rewrite digit_char_val by apply N_mod_10_lt.
      rewrite N2Nat.id.
      rewrite (N.div_mod n 10) at 3 by discriminate. lia.
    + apply N.Div0.div_lt_upper_bound.
      rewrite Nat2N.inj_succ, N.pow_succ_r' in Hn. exact Hn.
Qed.

Lemma digits_rev_shape : forall f n,
  (0 < n)%N -> (n < 10 ^ N.of_nat f)%N ->
  exists c r, digits_rev f n = String c r /\ is_digit c = true /\
              Ascii.eqb c "0" = false /\ all_chars is_digit r = true.
Proof.
  induction f as [| f IH]; intros n Hpos Hn.
  - simpl in Hn. lia.
  - simpl. destruct (N.eqb_spec n 0) as [-> | Hnz]; [lia |].
    destruct (N.eqb_spec (n / 10) 0) as [Hq | Hq].
    + rewrite Hq, digits_rev_zero. cbn [append].
      exists (digit_char (N.to_nat (n mod 10))), "". repeat split.
      * apply digit_char_digit, N_mod_10_lt.
      * apply Ascii.eqb_neq. intros Heq.
        assert (H0 := digit_char_val (N.to_nat (n mod 10)) (N_mod_10_lt n)).
        rewrite Heq in H0. simpl in H0.
        assert (Hd := N.div_mod n 10 ltac:(discriminate)). rewrite Hq in Hd. lia.
    + destruct (IH (n / 10)%N) as (c & r & Hs & H1 & H2 & H3).
      * apply N.neq_0_lt_0, Hq.
      * apply N.Div0.div_lt_upper_bound.
        rewrite Nat2N.inj_succ, N.pow_succ_r' in Hn. exact Hn.
      * rewrite Hs. cbn [append]. exists c, (r ++ String (digit_char (N.to_nat (n mod 10))) "")%string.
        repeat split; auto.
        rewrite all_chars_app, H3. cbn [all_chars]. rewrite digit_char_digit by apply N_mod_10_lt.
        reflexivity.
Qed.

Lemma str_of_N_shape : forall n,
  exists c r, str_of_N n = String c r /\ canonical_decimal (String c r) = true /\
              is_digit c = true /\ digits_val (str_of_N n) 0 = n.
Proof.
  intros n. unfold str_of_N. destruct (N.eqb_spec n 0) as [-> | Hnz].
  - exists "0"%char, "". repeat split.
  - assert (Hb : (n < 10 ^ N.of_nat (N.to_nat n))%N).
    { rewrite N2Nat.id. apply N.pow_gt_lin_r; lia. }
    destruct (digits_rev_shape (N.to_nat n) n ltac:(lia) Hb) as (c & r & Hs & H1 & H2 & H3).
    exists c, r. rewrite Hs. repeat split; auto.
    + simpl. rewrite H1, H2, H3. reflexivity.
    + rewrite <- Hs. apply digits_rev_val, Hb.
Qed.

(** [yaml.safe_load(str(z)) == z] *)
Lemma yaml_safe_load_str_of_Z : forall R z,
  yaml_safe_load R (str_of_Z z) = Some (PInt z).
Proof.
  intros R z. unfold yaml_safe_load, str_of_Z.
  destruct (Z.ltb_spec z 0) as [Hneg | Hnn].
  - destruct (str_of_N_shape (Z.to_N (- z))) as (c & r & Hs & Hc & Hd & Hv).
    rewrite Hs in *. simpl in Hc, Hv |- *. rewrite Hc, Hv. f_equal. f_equal. lia.
  - destruct (str_of_N_shape (Z.to_N z)) as (c & r & Hs & Hc & Hd & Hv).
    rewrite Hs in *. simpl in Hc, Hv |- *.
    assert (Hm : Ascii.eqb c "-" = false).
    { apply Ascii.eqb_neq. intros ->. discriminate Hd. }
    rewrite Hm, Hc, Hv. f_equal. f_equal. lia.
Qed.

(* ------------------------------------------------------------------ *)
(** ** The Fernet envelope *)

Lemma string_app_assoc : forall a b c : string, ((a ++ b) ++ c)%string = (a ++ (b ++ c))%string.
Proof. induction a; simpl; intros; f_equal; auto. Qed.

Lemma strip_prefix_app : forall p s, strip_prefix p (p ++ s)%string = Some s.
Proof. induction p; simpl; auto. rewrite Ascii.eqb_refl; auto. Qed.

Lemma sample_fernet_correct : fernet_correct sample_runtime.
Proof.
  intros k n m. change (strip_prefix (k ++ ":") (k ++ ":" ++ m) = Some m).
  rewrite <- string_app_assoc. apply strip_prefix_app.
Qed.

Lemma sample_doc_roundtrip : doc_roundtrip sample_runtime.
Proof. intros d Hd _. exists d; simpl; auto. Qed.

Lemma sample_derived_key_nonempty : derived_key_nonempty sample_runtime.
Proof. intros p pw; simpl; discriminate. Qed.

(** [_encrypt] of a supported value is a Fernet token of [str_data_of]. *)
Lemma encrypt_token : forall R key n v, v <> PNone ->
  _encrypt R key n v = (PStr (fernet_encrypt R key n (str_data_of R v)), S n).
Proof.
  intros R key n v Hv; destruct v; try reflexivity; contradiction.
Qed.

(** C1: [_decrypt] is documented to give back a string, dict or list
    "depending on the original data type", but it hands the decrypted
    plaintext to [yaml.safe_load] whatever that type was. A [str] that
    reads as a YAML integer, boolean word, null word or the empty
    document comes back as an [int], a [bool] or [None]. *)
Theorem decrypt_encrypt_str_coerced : forall R key n,
  fernet_correct R ->
  (forall s z, plain_int s = Some z ->
     _decrypt R key (fst (_encrypt R key n (PStr s))) = PInt z) /\
  (forall s, In s yaml_true_words ->
     _decrypt R key (fst (_encrypt R key n (PStr s))) = PBool true) /\
  (forall s, In s yaml_false_words ->
     _decrypt R key (fst (_encrypt R key n (PStr s))) = PBool false) /\
  (forall s, In s yaml_null_words ->
     _decrypt R key (fst (_encrypt R key n (PStr s))) = PNone) /\
  _decrypt R key (fst (_encrypt R key n (PStr ""))) = PNone.
Proof.
  intros R key n HF.
  assert (Hgen : forall s, _decrypt R key (fst (_encrypt R key n (PStr s)))
                           = parse_or_raw R s).
  { intros s. rewrite encrypt_token by discriminate. simpl. rewrite HF. reflexivity. }
  repeat split.
  - intros s z Hz. rewrite Hgen. unfold parse_or_raw, yaml_safe_load.
    destruct s as [| c r]; [discriminate |]. rewrite Hz. reflexivity.
  - intros s Hs. rewrite Hgen.
    repeat (destruct Hs as [<- | Hs]; [reflexivity |]). destruct Hs.
  - intros s Hs. rewrite Hgen.
    repeat (destruct Hs as [<- | Hs]; [reflexivity |]). destruct Hs.
  - intros s Hs. rewrite Hgen.
    repeat (destruct Hs as [<- | Hs]; [reflexivity |]). destruct Hs.
  - rewrite Hgen. reflexivity.
Qed.

Lemma decrypt_encrypt_str_coerced_witness :
  fernet_correct sample_runtime /\ plain_int "123" = Some 123%Z /\ In "yes" yaml_true_words /\
  _decrypt sample_runtime "k" (fst (_encrypt sample_runtime "k" 0 (PStr "123"))) = PInt 123 /\
  _decrypt sample_runtime "k" (fst (_encrypt sample_runtime "k" 0 (PStr "yes"))) = PBool true.
Proof.
  destruct (decrypt_encrypt_str_coerced sample_runtime "k" 0 sample_fernet_correct)
    as (Hint & Htrue & _).
  split; [exact sample_fernet_correct |]. split; [reflexivity |].
  split; [simpl; auto |].
  split; [apply Hint; reflexivity | apply Htrue; simpl; auto].
Defined.

(* ------------------------------------------------------------------ *)
(** ** Key management *)

(** C3: with a key in the keyring and [reset_key] false, the stored key
    is returned and the keyring left as it is, whatever the password;
    so two calls without reset return the same key. (A stored empty
    string is falsy in Python and is no key.) *)
Theorem get_or_create_key_stored : forall R,
  derived_key_nonempty R ->
  (forall kr salt0 k pw,
     stored kr = Some k -> k <> "" ->
     _get_or_create_key R kr salt0 pw false = Ok (k, kr)) /\
  (forall kr salt0 pw1 pw2 k1 kr1,
     _get_or_create_key R kr salt0 pw1 false = Ok (k1, kr1) ->
     _get_or_create_key R kr1 salt0 pw2 false = Ok (k1, kr1)).
Proof.
  intros R Hnz.
  assert (Hstored : forall kr salt0 k pw, stored kr = Some k -> k <> "" ->
            _get_or_create_key R kr salt0 pw false = Ok (k, kr)).
  { intros kr salt0 k pw Hk Hne. unfold _get_or_create_key. rewrite Hk.
    apply String.eqb_neq in Hne. rewrite Hne. reflexivity. }
  split; [exact Hstored |].
  intros kr salt0 pw1 pw2 k1 kr1 H1.
  unfold _get_or_create_key in H1.
  assert (Hcreate : (new_key <- _generate_key R pw1 salt0 ;;
                                Ok (new_key, {| stored := Some new_key |})) = Ok (k1, kr1) ->
            _get_or_create_key R kr1 salt0 pw2 false = Ok (k1, kr1)).
  { intros Hc. destruct pw1; simpl in Hc; try discriminate.
    inversion Hc; subst. apply Hstored; [reflexivity | apply Hnz]. }
  destruct (stored kr) as [existing_key |] eqn:Hk.
  - destruct (negb (String.eqb existing_key "") && negb false) eqn:E.
    + inversion H1; subst. apply Hstored with (k := k1); [exact Hk |].
      simpl in E. rewrite andb_true_r in E. apply negb_true_iff, String.eqb_neq in E.
      exact E.
    + exact (Hcreate H1).
  - exact (Hcreate H1).
Qed.

Lemma get_or_create_key_stored_witness :
  derived_key_nonempty sample_runtime /\
  _get_or_create_key sample_runtime {| stored := Some "abc" |} (uuid_bytes 7) (PStr "pw") false
  = Ok ("abc", {| stored := Some "abc" |}).
Proof.
  split; [exact sample_derived_key_nonempty |].
  apply (proj1 (get_or_create_key_stored sample_runtime sample_derived_key_nonempty));
    [reflexivity | discriminate].
Defined.

(** C4: the password of [ConfigManager] is documented as optional ("a
    default password may be used"), but with no usable key in the
    keyring and no password, [_generate_key] calls [None.encode()],
    which raises [AttributeError]; no default is used, the constructor
    does not catch it and nothing is stored. *)
Theorem get_or_create_key_no_password : forall R kr salt0 reset_key,
  stored kr = None \/ stored kr = Some "" \/ reset_key = true ->
  _get_or_create_key R kr salt0 PNone reset_key
  = Err (Exc "AttributeError" "'NoneType' object has no attribute 'encode'").
Proof.
  intros R kr salt0 reset_key H. unfold _get_or_create_key.
  destruct H as [H | [H | H]].
  - rewrite H. reflexivity.
  - rewrite H. reflexivity.
  - subst. destruct (stored kr) as [k |]; [rewrite andb_false_r |]; reflexivity.
Qed.

Lemma get_or_create_key_no_password_witness :
  (stored {| stored := None |} = None \/ stored {| stored := None |} = Some ""
   \/ false = true) /\
  _get_or_create_key sample_runtime {| stored := None |} (uuid_bytes 7) PNone false
  = Err (Exc "AttributeError" "'NoneType' object has no attribute 'encode'").
Proof.
  split; [left; reflexivity |].
  apply get_or_create_key_no_password. left; reflexivity.
Defined.

(** C9: a new key is [urlsafe_b64encode] of PBKDF2-HMAC-SHA256 with
    100000 iterations, a 32-byte output and the 16-byte salt
    [uuid.UUID(int=uuid.getnode()).bytes], derived from the password;
    it is stored in the keyring and returned. It depends only on the
    password and the host's node id. *)
Theorem new_key_derivation : forall R kr node pw reset_key,
  reset_key = true \/ stored kr = None \/ stored kr = Some "" ->
  init_key R kr node (PStr pw) reset_key =
    Ok (urlsafe_b64encode R (kdf_derive R (kdf_params (uuid_bytes node)) pw),
        {| stored := Some (urlsafe_b64encode R (kdf_derive R (kdf_params (uuid_bytes node)) pw)) |})
  /\ algorithm (kdf_params (uuid_bytes node)) = "SHA256"
  /\ (100000 <= iterations (kdf_params (uuid_bytes node)))%Z
  /\ length (kdf_params (uuid_bytes node)) = 32
  /\ salt (kdf_params (uuid_bytes node)) = uuid_bytes node
  /\ String.length (uuid_bytes node) = 16.
Proof.
  intros R kr node pw reset_key H.
  split; [| repeat split; try reflexivity; simpl; lia].
  unfold init_key, _get_or_create_key.
  destruct H as [-> | [H | H]]; rewrite ?H; simpl; try reflexivity.
  destruct (stored kr); [rewrite andb_false_r |]; reflexivity.
Qed.

Lemma new_key_derivation_witness :
  (false = true \/ stored {| stored := None |} = None \/ stored {| stored := None |} = Some "")
  /\ init_key sample_runtime {| stored := None |} 7 (PStr "secret") false
     = Ok ("key-secret", {| stored := Some "key-secret" |}).
Proof.
  split; [right; left; reflexivity |].
  apply (new_key_derivation sample_runtime {| stored := None |} 7 "secret" false).
  right; left; reflexivity.
Defined.

(* ------------------------------------------------------------------ *)
(** ** [load_config] never raises *)

(** C5: [load_config] returns a dict on every world; [{}] when the file
    is missing, when it cannot be read or parsed, and whenever the body
    of its [try] block raises. *)
Theorem load_config_total : forall R key w,
  (exists m, load_config R key w = Ok m) /\
  (file R w = None -> load_config R key w = Ok []) /\
  (forall d, file R w = Some d -> doc_load R d = None -> load_config R key w = Ok []) /\
  (forall d e, file R w = Some d -> load_body R key d = Err e -> load_config R key w = Ok []).
Proof.
  intros R key w. unfold load_config. repeat split.
  - destruct (file R w); eauto.
  - intros ->; reflexivity.
  - intros d -> Hd. unfold load_body. rewrite Hd. reflexivity.
  - intros d e -> He. rewrite He. reflexivity.
Qed.

Lemma load_config_total_witness :
  file sample_runtime (Build_World sample_runtime None true 0) = None /\
  load_config sample_runtime "k" (Build_World sample_runtime None true 0) = Ok [].
Proof.
  split; [reflexivity |].
  apply (proj1 (proj2 (load_config_total sample_runtime "k" (Build_World sample_runtime None true 0)))).
  reflexivity.
Defined.

(* ------------------------------------------------------------------ *)
(** ** Decryption of fetched rows *)

Section DecryptRows.
Variable R : Runtime.
Variable dec : pyval -> result pyval.

Lemma decrypt_value_ok : forall c v x,
  decrypt_value R dec c v = Ok x ->
  match v with
  | SBlob b => exists y, decode_and_decrypt R dec b = Ok y /\ x = Dec y
  | _ => x = Raw v
  end.
Proof.
  intros c [| z | s | b] x H; simpl in H; try (inversion H; reflexivity).
  destruct (decode_and_decrypt R dec b) as [y | e]; inversion H; eauto.
Qed.

Lemma decrypt_value_err : forall c v e,
  decrypt_value R dec c v = Err e ->
  exists b e0, v = SBlob b /\ decode_and_decrypt R dec b = Err e0 /\
    e = Exc "ValueError" ("Error decrypting value for " ++ c ++ ": " ++ exn_msg e0).
Proof.
  intros c [| z | s | b] e H; simpl in H; try discriminate.
  destruct (decode_and_decrypt R dec b) as [y | e0] eqn:E; inversion H; eauto.
Qed.

Lemma decrypt_row_other : forall cs vs acc d c,
  decrypt_row R dec acc cs vs = Ok d -> ~ In c cs ->
  dict_get d (KStr c) = dict_get acc (KStr c).
Proof.
  induction cs as [| c' cs IH]; intros vs acc d c H Hn.
  - simpl in H. inversion H; reflexivity.
  - destruct vs as [| v vs]; simpl in H; [inversion H; reflexivity |].
    destruct (decrypt_value R dec c' v) as [x | e]; simpl in H; [| discriminate].
    rewrite (IH _ _ _ _ H (fun Hi => Hn (or_intror Hi))), dict_get_set.
    replace (key_eqb (KStr c) (KStr c')) with false; [reflexivity |].
    symmetry. unfold key_eqb; simpl. apply String.eqb_neq.
    intros ->. apply Hn. left; reflexivity.
Qed.

Lemma decrypt_row_at : forall cs vs acc d i c v,
  NoDup cs -> decrypt_row R dec acc cs vs = Ok d ->
  nth_error cs i = Some c -> nth_error vs i = Some v ->
  exists x, decrypt_value R dec c v = Ok x /\ dict_get d (KStr c) = Some x.
Proof.
  induction cs as [| c' cs IH]; intros vs acc d i c v Hnd H Hc Hv.
  - destruct i; discriminate.
  - destruct vs as [| v' vs]; [destruct i; discriminate |].
    inversion Hnd as [| ? ? Hnin Hnd']; subst.
    simpl in H. destruct (decrypt_value R dec c' v') as [x | e] eqn:E;
      simpl in H; [| discriminate].
    destruct i as [| j]; simpl in Hc, Hv.
    + inversion Hc; inversion Hv; subst. exists x. split; [exact E |].
      rewrite (decrypt_row_other _ _ _ _ _ H Hnin), dict_get_set, key_eqb_refl.
      reflexivity.
    + exact (IH _ _ _ _ _ _ Hnd' H Hc Hv).
Qed.

Lemma decrypt_row_err : forall cs vs acc e,
  decrypt_row R dec acc cs vs = Err e ->
  exists i c v, nth_error cs i = Some c /\ nth_error vs i = Some v /\
    decrypt_value R dec c v = Err e.
Proof.
  induction cs as [| c' cs IH]; intros vs acc e H; [discriminate |].
  destruct vs as [| v vs]; [discriminate |]. simpl in H.
  destruct (decrypt_value R dec c' v) as [x | e'] eqn:E; simpl in H.
  - destruct (IH _ _ _ H) as (i & c & w & H1 & H2 & H3).
    exists (S i), c, w. auto.
  - inversion H; subst. exists 0, c', v. auto.
Qed.

Lemma decrypt_row_fails : forall cs vs acc i c v e0,
  nth_error cs i = Some c -> nth_error vs i = Some v ->
  decrypt_value R dec c v = Err e0 ->
  exists e, decrypt_row R dec acc cs vs = Err e.
Proof.
  induction cs as [| c' cs IH]; intros vs acc i c v e0 Hc Hv He;
    [destruct i; discriminate |].
  destruct vs as [| v' vs]; [destruct i; discriminate |]. simpl.
  destruct (decrypt_value R dec c' v') as [x | e'] eqn:E; simpl; [| eauto].
  destruct i as [| j]; simpl in Hc, Hv.
  - inversion Hc; inversion Hv; subst. congruence.
  - exact (IH _ _ _ _ _ _ Hc Hv He).
Qed.

Lemma decrypt_rows_ok : forall cols rows res,
  decrypt_rows_with R dec cols rows = Ok res ->
  Forall2 (fun row d => decrypt_row R dec [] cols row = Ok d) rows res.
Proof.
  intros cols; induction rows as [| row rows IH]; intros res H; simpl in H.
  - inversion H; constructor.
  - destruct (decrypt_row R dec [] cols row) as [d | e] eqn:E; simpl in H; [| discriminate].
    destruct (decrypt_rows_with R dec cols rows) as [ds | e] eqn:E2; simpl in H;
      [| discriminate].
    inversion H; subst. constructor; auto.
Qed.

Lemma decrypt_rows_err : forall cols rows e,
  decrypt_rows_with R dec cols rows = Err e ->
  exists row, In row rows /\ decrypt_row R dec [] cols row = Err e.
Proof.
  intros cols; induction rows as [| row rows IH]; intros e H; simpl in H; [discriminate |].
  destruct (decrypt_row R dec [] cols row) as [d | e'] eqn:E; simpl in H.
  - destruct (decrypt_rows_with R dec cols rows) as [ds | e''] eqn:E2; simpl in H;
      [discriminate |].
    inversion H; subst. destruct (IH _ eq_refl) as (r & Hr & Hr').
    exists r; split; [right |]; assumption.
  - inversion H; subst. exists row; split; [left |]; auto.
Qed.

Lemma decrypt_rows_fails : forall cols rows row e0,
  In row rows -> decrypt_row R dec [] cols row = Err e0 ->
  exists e, decrypt_rows_with R dec cols rows = Err e.
Proof.
  intros cols; induction rows as [| r rows IH]; intros row e0 Hin H; [destruct Hin |].
  simpl. destruct Hin as [-> | Hin].
  - rewrite H. simpl. eauto.
  - destruct (decrypt_row R dec [] cols r) as [d | e'] eqn:E; simpl; [| eauto].
    destruct (IH _ _ Hin H) as [e He]. rewrite He. simpl. eauto.
Qed.

End DecryptRows.

(** C10: in [_decrypt_rows] only a [bytes] value is base64-decoded and
    decrypted; every other value (None, an integer, a text) comes back
    unchanged; a failure while decoding or decrypting a [bytes] value
    raises [ValueError] naming its column, and any such failure makes
    the whole call raise. *)
Theorem decrypt_rows_spec : forall R dec cols rows,
  NoDup cols ->
  (forall res, decrypt_rows_with R dec cols rows = Ok res ->
     Forall2 (fun row d => forall i c v,
        nth_error cols i = Some c -> nth_error row i = Some v ->
        match v with
        | SBlob b => exists x, decode_and_decrypt R dec b = Ok x /\
                               dict_get d (KStr c) = Some (Dec x)
        | _ => dict_get d (KStr c) = Some (Raw v)
        end) rows res) /\
  (forall e, decrypt_rows_with R dec cols rows = Err e ->
     exists row i c b e0, In row rows /\ nth_error cols i = Some c /\
       nth_error row i = Some (SBlob b) /\ decode_and_decrypt R dec b = Err e0 /\
       e = Exc "ValueError" ("Error decrypting value for " ++ c ++ ": " ++ exn_msg e0)) /\
  (forall row i c b e0, In row rows -> nth_error cols i = Some c ->
     nth_error row i = Some (SBlob b) -> decode_and_decrypt R dec b = Err e0 ->
     exists e, decrypt_rows_with R dec cols rows = Err e).
Proof.
  intros R dec cols rows Hnd. split; [| split].
  - intros res H. apply decrypt_rows_ok in H.
    eapply Forall2_impl; [| exact H]. intros row d Hrow i c v Hc Hv.
    destruct (decrypt_row_at R dec _ _ _ _ _ _ _ Hnd Hrow Hc Hv) as (x & Hx & Hg).
    apply decrypt_value_ok in Hx. rewrite Hg.
    destruct v as [| z | s | b]; subst; try reflexivity.
    destruct Hx as (y & Hy & ->). eauto.
  - intros e H. destruct (decrypt_rows_err R dec _ _ _ H) as (row & Hin & Hrow).
    destruct (decrypt_row_err R dec _ _ _ _ Hrow) as (i & c & v & Hc & Hv & He).
    destruct (decrypt_value_err R dec _ _ _ He) as (b & e0 & -> & Hb & ->).
    exists row, i, c, b, e0. auto.
  - intros row i c b e0 Hin Hc Hv Hb.
    assert (He : decrypt_value R dec c (SBlob b) =
                 Err (Exc "ValueError" ("Error decrypting value for " ++ c ++ ": " ++ exn_msg e0)))
      by (simpl; rewrite Hb; reflexivity).
    destruct (decrypt_row_fails R dec _ _ [] _ _ _ _ Hc Hv He) as [e1 H1].
    exact (decrypt_rows_fails R dec _ _ _ _ Hin H1).
Qed.

Lemma decrypt_rows_spec_witness :
  NoDup ["id"; "name"] /\
  exists e, decrypt_rows_with sample_runtime (fun _ => Err (Exc "InvalidToken" "bad"))
              ["id"; "name"] [[SInt 1; SBlob "x"]] = Err e.
Proof.
  assert (Hnd : NoDup ["id"; "name"]).
  { constructor; [simpl; intros [H | []]; discriminate |].
    constructor; [intros [] | constructor]. }
  split; [exact Hnd |].
  apply (proj2 (proj2 (decrypt_rows_spec sample_runtime (fun _ => Err (Exc "InvalidToken" "bad"))
           ["id"; "name"] [[SInt 1; SBlob "x"]] Hnd)) [SInt 1; SBlob "x"] 1 "name" "x"
           (Exc "InvalidToken" "bad")); [left | | |]; reflexivity.
Defined.

(* ------------------------------------------------------------------ *)
(** ** The relational adapter calls methods [ConfigManager] lacks *)

(** C2: [insert_data] calls [self.config_manager.encrypt], which does not
    exist ([_encrypt] does): it raises [AttributeError] before any query
    runs, so no row can be inserted; and [_decrypt_rows] calls the missing
    [decrypt], so every fetched [bytes] value makes the select raise. *)
Theorem insert_and_select_raise : forall R key DB execute,
  (forall db n table data, data <> [] ->
     insert_data R key DB execute db n table data = Err (attribute_error "encrypt")) /\
  (forall cols rows row i c b, In row rows -> nth_error cols i = Some c ->
     nth_error row i = Some (SBlob b) ->
     exists e, _decrypt_rows R key cols rows = Err e).
Proof.
  intros R key DB execute. split.
  - intros db n table [| [c v] data] Hne; [contradiction |]. reflexivity.
  - intros cols rows row i c b Hin Hc Hv. unfold _decrypt_rows.
    assert (Hb : exists e0, decode_and_decrypt R (cm_decrypt_call R key "decrypt") b = Err e0).
    { unfold decode_and_decrypt.
      destruct (b64decode R b) as [s | e]; simpl; [| eauto].
      destruct (utf8_decode R s) as [u | e]; cbn; eauto. }
    destruct Hb as [e0 Hb].
    assert (He : decrypt_value R (cm_decrypt_call R key "decrypt") c (SBlob b) =
                 Err (Exc "ValueError" ("Error decrypting value for " ++ c ++ ": " ++ exn_msg e0)))
      by (simpl; rewrite Hb; reflexivity).
    destruct (decrypt_row_fails R _ _ _ [] _ _ _ _ Hc Hv He) as [e1 H1].
    exact (decrypt_rows_fails R _ _ _ _ _ Hin H1).
Qed.

Lemma insert_and_select_raise_witness :
  [("name", PStr "A"); ("age", PInt 30)] <> [] /\
  insert_data sample_runtime "k" unit (fun db _ _ => Ok db) tt 0 "users"
    [("name", PStr "A"); ("age", PInt 30)] = Err (attribute_error "encrypt").
Proof.
  assert (Hne : [("name", PStr "A"); ("age", PInt 30)] <> []) by discriminate.
  split; [exact Hne |].
  exact (proj1 (insert_and_select_raise sample_runtime "k" unit (fun db _ _ => Ok db))
           tt 0 "users" _ Hne).
Defined.

(* ------------------------------------------------------------------ *)
(** ** Decryption failures in [load_config] *)

(** C8: [_decrypt] returns a [str] whose authenticated decryption fails
    as it is. But [load_config] parses every decrypted [str] again with
    [yaml.safe_load] and no per-entry guard, unlike [_decrypt] which
    catches [YAMLError]: a stored [str] value such as ["x: y: z"]
    (plaintext no YAML reader accepts) makes the whole load return
    [{}], and with it the fallback value of a truncated envelope. The
    same truncated envelope next to readable entries is kept. *)
Theorem truncated_envelope_load : forall R key s,
  (fernet_decrypt R key s = None -> _decrypt R key (PStr s) = PStr s) /\
  load_config sample_runtime "k"
    (doc_world [(KStr "a", PStr "gAAAAABl"); (KStr "b", PStr "k:x: y: z")]) = Ok [] /\
  load_config sample_runtime "k" (doc_world [(KStr "a", PStr "gAAAAABl")])
    = Ok [(KStr "a", PStr "gAAAAABl")] /\
  load_config sample_runtime "k"
    (doc_world [(KStr "a", PStr "gAAAAABl"); (KStr "c", PStr "k:hello")])
    = Ok [(KStr "a", PStr "gAAAAABl"); (KStr "c", PStr "hello")].
Proof.
  intros R key s. split; [| repeat split; vm_compute; reflexivity].
  intros H. simpl. rewrite H. reflexivity.
Qed.

Lemma truncated_envelope_load_witness :
  fernet_decrypt sample_runtime "k" "gAAAAABl" = None /\
  _decrypt sample_runtime "k" (PStr "gAAAAABl") = PStr "gAAAAABl".
Proof.
  split; [reflexivity |].
  apply (proj1 (truncated_envelope_load sample_runtime "k" "gAAAAABl")). reflexivity.
Defined.

(* ------------------------------------------------------------------ *)
(** ** [save_config] followed by [load_config] *)

Lemma encrypt_comp_nodup : forall R key items n acc enc n',
  dict_nodup acc -> encrypt_comp R key n acc items = (enc, n') -> dict_nodup enc.
Proof.
  intros R key items; induction items as [| [k1 v1] items IH]; intros n acc enc n' Hacc H;
    simpl in H.
  - inversion H; subst; exact Hacc.
  - destruct (_encrypt R key n v1) as [c n''].
    exact (IH _ _ _ _ (dict_set_nodup _ _ _ _ Hacc) H).
Qed.

(** Each string of a dict is replaced by a Fernet token of it. *)
Lemma encrypt_comp_get : forall R key items n acc enc n',
  dict_nodup items -> encrypt_comp R key n acc items = (enc, n') ->
  forall k,
    (dict_get items k = None -> dict_get enc k = dict_get acc k) /\
    (forall s, dict_get items k = Some (PStr s) ->
       exists m, dict_get enc k = Some (PStr (fernet_encrypt R key m s))).
Proof.
  intros R key items; induction items as [| [k1 v1] items IH];
    intros n acc enc n' Hnd H k; simpl in H.
  - inversion H; subst. split; [reflexivity | discriminate].
  - destruct Hnd as [H1 H2].
    destruct (_encrypt R key n v1) as [c n''] eqn:Ee.
    destruct (IH _ _ _ _ H2 H k) as [IHn IHs]. simpl.
    destruct (key_eqb k k1) eqn:E.
    + assert (Hk : dict_get items k = None)
        by (rewrite (dict_get_congr _ items _ _ E); exact H1).
      rewrite (IHn Hk), dict_get_set, E.
      split; [discriminate |]. intros s Hs. inversion Hs; subst v1.
      simpl in Ee. inversion Ee; subst. eauto.
    + rewrite dict_get_set, E in IHn. split; assumption.
Qed.

Lemma dict_comp_r_get : forall V W (f : V -> result W) items acc d,
  dict_nodup items -> dict_comp_r f acc items = Ok d ->
  forall k,
    (dict_get items k = None -> dict_get d k = dict_get acc k) /\
    (forall v, dict_get items k = Some v -> exists w, f v = Ok w /\ dict_get d k = Some w).
Proof.
  intros V W f items; induction items as [| [k1 v1] items IH];
    intros acc d Hnd H k; simpl in H.
  - inversion H; subst. split; [reflexivity | discriminate].
  - destruct Hnd as [H1 H2].
    destruct (f v1) as [w | e] eqn:Ef; simpl in H; [| discriminate].
    destruct (IH _ _ H2 H k) as [IHn IHs]. simpl.
    destruct (key_eqb k k1) eqn:E.
    + assert (Hk : dict_get items k = None)
        by (rewrite (dict_get_congr _ items _ _ E); exact H1).
      rewrite (IHn Hk), dict_get_set, E.
      split; [discriminate |]. intros v Hv. inversion Hv; subst. eauto.
    + rewrite dict_get_set, E in IHn. split; assumption.
Qed.

Lemma dict_comp_r_ok : forall V W (f : V -> result W) items acc,
  (forall k v, In (k, v) items -> exists w, f v = Ok w) ->
  exists d, dict_comp_r f acc items = Ok d.
Proof.
  intros V W f items; induction items as [| [k1 v1] items IH]; intros acc H; simpl.
  - eauto.
  - destruct (H k1 v1 (or_introl eq_refl)) as [w Hw]. rewrite Hw. simpl.
    apply IH. intros k v Hin. exact (H k v (or_intror Hin)).
Qed.

(** [str(int)] is read back as the same [int]. *)
Lemma read_back_int : forall R z, read_back R (PInt z) = Ok (PInt z).
Proof.
  intros R z. unfold read_back, parse_or_raw. simpl.
  rewrite yaml_safe_load_str_of_Z. reflexivity.
Qed.

Lemma dict_get_In : forall V (d : dict V) k v,
  dict_get d k = Some v -> exists k', In (k', v) d.
Proof.
  intros V d k v; induction d as [| [k1 v1] d IH]; simpl; intros H; [discriminate |].
  destruct (key_eqb k k1).
  - inversion H; subst. eauto.
  - destruct (IH H) as [k' Hk']. eauto.
Qed.

(** What [save_config(p)] writes is read by the next [load_config] as
    follows: every value [v] of [{**m, **p}] is decrypted to its
    plaintext [str_data_of v] parsed by [_decrypt], and the second
    comprehension of [load_config] then runs over those values. *)
Lemma save_decrypted : forall R key w m p w',
  fernet_correct R -> doc_roundtrip R -> writable R w = true ->
  load_config R key w = Ok m -> save_config R key w p = Ok w' ->
  exists decrypted, dict_nodup decrypted /\
    (forall k, dict_get decrypted k =
       option_map (fun v => parse_or_raw R (str_data_of R v)) (dict_get (dict_update m p) k)) /\
    load_config R key w' = Ok (try_except (dict_comp_r (reparse R) [] decrypted) (fun _ => [])).
Proof.
  intros R key w m p w' Hf Hdoc Hw Hl Hs.
  unfold save_config in Hs. rewrite Hl in Hs. cbn [bind] in Hs.
  set (merged := dict_update m p) in *.
  set (str_data := dict_comp (fun value => PStr (str_data_of R value)) merged) in *.
  destruct (encrypt_comp R key (draws R w) [] str_data) as [enc n'] eqn:He.
  rewrite Hw in Hs. simpl in Hs. injection Hs as <-.
  assert (Hmn : dict_nodup merged)
    by (apply dict_update_nodup; eapply load_config_nodup; exact Hl).
  assert (Hsd : dict_nodup str_data) by apply dict_comp_nodup.
  assert (Hek : forall k, match dict_get merged k with
      | Some v => exists mm, dict_get enc k = Some (PStr (fernet_encrypt R key mm (str_data_of R v)))
      | None => dict_get enc k = None
      end).
  { intros k. destruct (encrypt_comp_get R key _ _ _ _ _ Hsd He k) as [Hn Hs].
    assert (Hsg := dict_get_comp _ _ (fun value => PStr (str_data_of R value)) merged k Hmn).
    fold str_data in Hsg.
    destruct (dict_get merged k) as [v |]; simpl in Hsg; [apply Hs, Hsg | rewrite Hn by exact Hsg; reflexivity]. }
  assert (Hencn : dict_nodup enc) by (eapply encrypt_comp_nodup; [| exact He]; exact I).
  assert (Hall : Forall (fun kv => exists s, snd kv = PStr s) enc).
  { apply Forall_forall. intros [k v] Hin. simpl.
    assert (Hg := dict_nodup_In_get _ _ _ _ Hencn Hin). specialize (Hek k).
    destruct (dict_get merged k) as [v0 |].
    - destruct Hek as [mm Hmm]. rewrite Hmm in Hg. inversion Hg; eauto.
    - rewrite Hek in Hg; discriminate. }
  destruct (Hdoc enc Hencn Hall) as (d' & Hd' & Hnd' & Hget).
  exists (dict_comp (fun value => _decrypt R key (PStr (py_str R value))) d').
  split; [apply dict_comp_nodup |]. split.
  - intros k. rewrite dict_get_comp by exact Hnd'. rewrite Hget.
    specialize (Hek k). destruct (dict_get merged k) as [v0 |].
    + destruct Hek as [mm ->]. simpl. rewrite Hf. reflexivity.
    + rewrite Hek. reflexivity.
  - unfold load_config; cbn [file]. unfold load_body. rewrite Hd'. reflexivity.
Qed.

(** A dict comprehension raises as soon as one of its values does. *)
Lemma dict_comp_r_err : forall V W (f : V -> result W) items acc k v e,
  In (k, v) items -> f v = Err e -> exists e', dict_comp_r f acc items = Err e'.
Proof.
  intros V W f items; induction items as [| [k1 v1] items IH]; intros acc k v e Hin Hf;
    [destruct Hin |].
  simpl. destruct (f v1) as [w1 | e1] eqn:E1; cbn [bind]; [| eauto].
  destruct Hin as [Heq | Hin].
  - inversion Heq; subst. congruence.
  - exact (IH _ _ _ _ Hin Hf).
Qed.

(** C6: [save_config] parses each saved value twice on the way back,
    once in [_decrypt] (which falls back to the plaintext on a YAML
    error) and once more, unguarded, in [load_config] (see C8). A [str]
    given to [save_config] that YAML cannot read makes every later
    [load_config] return [{}]: the merge of the stored dict with the
    saved one is lost, not only that value. From the stored [{a: 1}],
    [save({b: "x: y: z"})] is such a save, while [save({b: 2})] and
    [save({a: 3})] merge as expected and [save({b: "123"})] loads [b]
    back as the [int] [123]. *)
Theorem save_then_load_unparsable : forall R key w m p w' b s,
  fernet_correct R -> doc_roundtrip R -> writable R w = true -> dict_nodup p ->
  load_config R key w = Ok m -> save_config R key w p = Ok w' ->
  dict_get p b = Some (PStr s) -> yaml_safe_load R s = None ->
  load_config R key w' = Ok [] /\
  (exists w1, save_config sample_runtime "k" store_a1 [(KStr "b", PStr "x: y: z")] = Ok w1 /\
              load_config sample_runtime "k" w1 = Ok []) /\
  (exists w1, save_config sample_runtime "k" store_a1 [(KStr "b", PInt 2)] = Ok w1 /\
              load_config sample_runtime "k" w1 = Ok [(KStr "a", PInt 1); (KStr "b", PInt 2)]) /\
  (exists w1, save_config sample_runtime "k" store_a1 [(KStr "a", PInt 3)] = Ok w1 /\
              load_config sample_runtime "k" w1 = Ok [(KStr "a", PInt 3)]) /\
  (exists w1, save_config sample_runtime "k" store_a1 [(KStr "b", PStr "123")] = Ok w1 /\
              load_config sample_runtime "k" w1 = Ok [(KStr "a", PInt 1); (KStr "b", PInt 123)]).
Proof.
  intros R key w m p w' b s Hf Hdoc Hw Hp Hl Hs Hb Hy.
  split; [| repeat split; eexists; split; vm_compute; reflexivity].
  destruct (save_decrypted R key w m p w' Hf Hdoc Hw Hl Hs) as (dec & _ & Hdec & ->).
  assert (Hm : dict_get (dict_update m p) b = Some (PStr s))
    by (rewrite dict_get_update by exact Hp; rewrite Hb; reflexivity).
  specialize (Hdec b). rewrite Hm in Hdec. simpl in Hdec.
  unfold parse_or_raw in Hdec. rewrite Hy in Hdec.
  destruct (dict_get_In _ _ _ _ Hdec) as [k' Hin].
  assert (Hr : reparse R (PStr s) = Err (Exc "YAMLError" "could not parse a value"))
    by (simpl; rewrite Hy; reflexivity).
  destruct (dict_comp_r_err _ _ _ _ [] _ _ _ Hin Hr) as [e' ->].
  reflexivity.
Qed.

Lemma save_then_load_unparsable_witness :
  exists w', save_config sample_runtime "k" store_a1 [(KStr "b", PStr "x: y: z")] = Ok w' /\
    yaml_safe_load sample_runtime "x: y: z" = None /\
    load_config sample_runtime "k" w' = Ok [].
Proof.
  assert (Hl : load_config sample_runtime "k" store_a1 = Ok [(KStr "a", PInt 1)])
    by (vm_compute; reflexivity).
  eexists. split; [vm_compute; reflexivity |].
  split; [reflexivity |].
  exact (proj1 (save_then_load_unparsable sample_runtime "k" store_a1 _ [(KStr "b", PStr "x: y: z")] _ (KStr "b") "x: y: z"
           sample_fernet_correct sample_doc_roundtrip eq_refl (conj eq_refl I) Hl eq_refl
           eq_refl eq_refl)).
Defined.


(* ------------------------------------------------------------------ *)
(** ** Compositions of the config store operations *)

(** The merge read back by the next [load_config] when every merged
    value survives the second parse. *)
Lemma save_load_merge : forall R key w m p w',
  fernet_correct R -> doc_roundtrip R -> writable R w = true ->
  load_config R key w = Ok m -> save_config R key w p = Ok w' ->
  (forall k v, dict_get (dict_update m p) k = Some v -> exists x, read_back R v = Ok x) ->
  exists m', load_config R key w' = Ok m' /\
    forall k, match dict_get (dict_update m p) k with
              | Some v => exists x, read_back R v = Ok x /\ dict_get m' k = Some x
              | None => dict_get m' k = None
              end.
Proof.
  intros R key w m p w' Hf Hdoc Hw Hl Hs Hrb.
  destruct (save_decrypted R key w m p w' Hf Hdoc Hw Hl Hs) as (decrypted & Hdn & Hdec & ->).
  destruct (dict_comp_r_ok _ _ (reparse R) decrypted [])
    as [d Hd].
  { intros k v Hin. assert (Hg := dict_nodup_In_get _ _ _ _ Hdn Hin).
    rewrite Hdec in Hg. destruct (dict_get (dict_update m p) k) as [v0 |] eqn:Em; [| discriminate].
    inversion Hg; subst v. exact (Hrb k v0 Em). }
  rewrite Hd. exists d. split; [reflexivity |].
  intros k. destruct (dict_comp_r_get _ _ _ _ _ _ Hdn Hd k) as [Hn Hs'].
  specialize (Hdec k). destruct (dict_get (dict_update m p) k) as [v0 |]; simpl in Hdec.
  - destruct (Hs' _ Hdec) as (x & Hx & Hgx). exists x. split; assumption.
  - rewrite (Hn Hdec). reflexivity.
Qed.

(** [update_config(k, v)] followed by [get_config], when every value of
    the updated dict survives the second parse of [load_config]: [k]
    reads back as [read_back v], and every other key [k'] as
    [read_back] of the value [load_config] gave for it before (so a
    [str] ["123"] loaded before comes back as the [int] [123]), or stays
    absent. *)
Theorem update_then_get : forall R key w m k v w',
  fernet_correct R -> doc_roundtrip R -> writable R w = true ->
  load_config R key w = Ok m -> update_config R key w k v = Ok w' ->
  (forall k' x, dict_get (dict_set m k v) k' = Some x -> exists y, read_back R x = Ok y) ->
  (exists y, read_back R v = Ok y /\ get_config R key w' k = Ok (Some y)) /\
  (forall k', key_eqb k' k = false ->
     match dict_get m k' with
     | Some x => exists y, read_back R x = Ok y /\ get_config R key w' k' = Ok (Some y)
     | None => get_config R key w' k' = Ok None
     end).
Proof.
  intros R key w m k v w' Hf Hdoc Hw Hl Hu Hrb.
  unfold update_config in Hu. rewrite Hl in Hu. cbn [bind] in Hu.
  assert (Hnd : dict_nodup m) by (eapply load_config_nodup; exact Hl).
  assert (Hrb' : forall k' x, dict_get (dict_update m (dict_set m k v)) k' = Some x ->
                   exists y, read_back R x = Ok y)
    by (rewrite dict_update_set_self by exact Hnd; exact Hrb).
  destruct (save_load_merge R key w m _ w' Hf Hdoc Hw Hl Hu Hrb') as (m' & Hl' & Hg).
  rewrite dict_update_set_self in Hg by exact Hnd.
  unfold get_config. rewrite Hl'. cbn [bind]. split.
  - specialize (Hg k). rewrite dict_get_set, key_eqb_refl in Hg.
    destruct Hg as (y & Hy & Hm'). exists y. rewrite Hm'. auto.
  - intros k' Hk'. specialize (Hg k'). rewrite dict_get_set, Hk' in Hg.
    destruct (dict_get m k') as [x |].
    + destruct Hg as (y & Hy & Hm'). exists y. rewrite Hm'. auto.
    + rewrite Hg. reflexivity.
Qed.

Lemma update_then_get_witness :
  exists y, read_back sample_runtime (PInt 2) = Ok y /\
    get_config sample_runtime "k"
      (Build_World sample_runtime
         (Some (Some (PDict [(KStr "a", PStr "k:1"); (KStr "b", PStr "k:2")]))) true 2)
      (KStr "b") = Ok (Some y).
Proof.
  assert (Hl : load_config sample_runtime "k" store_a1 = Ok [(KStr "a", PInt 1)])
    by (vm_compute; reflexivity).
  assert (Hu : update_config sample_runtime "k" store_a1 (KStr "b") (PInt 2)
    = Ok (Build_World sample_runtime
            (Some (Some (PDict [(KStr "a", PStr "k:1"); (KStr "b", PStr "k:2")]))) true 2))
    by (vm_compute; reflexivity).
  assert (Hrb : forall k' x, dict_get (dict_set [(KStr "a", PInt 1)] (KStr "b") (PInt 2)) k'
                   = Some x -> exists y, read_back sample_runtime x = Ok y).
  { intros k' x H. apply dict_get_In in H. destruct H as [k'' Hin].
    simpl in Hin. destruct Hin as [E | [E | []]]; inversion E; subst;
      eexists; apply read_back_int. }
  exact (proj1 (update_then_get sample_runtime "k" store_a1 _ _ _ _
           sample_fernet_correct sample_doc_roundtrip eq_refl Hl Hu Hrb)).
Defined.

Lemma update_config_from_empty : forall R key w k v,
  writable R w = true -> load_config R key w = Ok [] ->
  exists tok n, update_config R key w k v
                = Ok (Build_World R (Some (doc_dump R [(k, PStr tok)])) true n).
Proof.
  intros R key w k v Hw Hl. unfold update_config. rewrite Hl. cbn [bind].
  unfold save_config. rewrite Hl. cbn [bind]. simpl.
  rewrite Hw. do 2 eexists. reflexivity.
Qed.

(** When [load_config] returns [{}] (no file, or a file it cannot read,
    see C5 and C8), [update_config(k, v)] rewrites the file with [k] as
    its only key: whatever the file held is lost. *)
Theorem update_config_overwrites_unreadable : forall R key w k v,
  writable R w = true -> load_config R key w = Ok [] ->
  exists tok n, update_config R key w k v
                = Ok (Build_World R (Some (doc_dump R [(k, PStr tok)])) true n).
Proof. exact update_config_from_empty. Qed.

Lemma update_config_overwrites_unreadable_witness :
  writable sample_runtime
    (doc_world [(KStr "a", PStr "gAAAAABl"); (KStr "b", PStr "k:x: y: z")]) = true /\
  load_config sample_runtime "k"
    (doc_world [(KStr "a", PStr "gAAAAABl"); (KStr "b", PStr "k:x: y: z")]) = Ok [] /\
  exists tok n, update_config sample_runtime "k"
    (doc_world [(KStr "a", PStr "gAAAAABl"); (KStr "b", PStr "k:x: y: z")]) (KStr "c") (PInt 1)
    = Ok (Build_World sample_runtime (Some (doc_dump sample_runtime [(KStr "c", PStr tok)])) true n).
Proof.
  assert (Hl : load_config sample_runtime "k"
    (doc_world [(KStr "a", PStr "gAAAAABl"); (KStr "b", PStr "k:x: y: z")]) = Ok [])
    by (vm_compute; reflexivity).
  split; [reflexivity |]. split; [exact Hl |].
  exact (update_config_overwrites_unreadable sample_runtime "k"
           (doc_world [(KStr "a", PStr "gAAAAABl"); (KStr "b", PStr "k:x: y: z")])
           (KStr "c") (PInt 1) eq_refl Hl).
Defined.

(* ------------------------------------------------------------------ *)
(** ** [LogManager] and the config store *)

Lemma validate_keys_ok : forall v keys,
  (forall k, In k keys -> exists b, py_contains v k = Ok b) ->
  (validate_keys v keys = Ok tt <-> forall k, In k keys -> py_contains v k = Ok true).
Proof.
  intros v keys; induction keys as [| k0 keys IH]; intros Hb; simpl.
  - split; [intros _ k [] | reflexivity].
  - destruct (Hb k0 (or_introl eq_refl)) as [b Hk0]. rewrite Hk0. cbn [bind].
    assert (IH' := IH (fun k H => Hb k (or_intror H))).
    destruct b.
    + rewrite IH'. split.
      * intros H k [<- | Hk]; auto.
      * intros H k Hk. apply H. right; exact Hk.
    + split; [discriminate |]. intros H. rewrite (H k0 (or_introl eq_refl)) in Hk0.
      discriminate.
Qed.

Lemma validate_keys_err : forall v keys e,
  validate_keys v keys = Err e ->
  exists k, In k keys /\
    ((py_contains v k = Ok false /\ e = Exc "ValueError" ("Log config must include a " ++ k ++ "."))
     \/ py_contains v k = Err e).
Proof.
  intros v keys; induction keys as [| k0 keys IH]; intros e H; simpl in H; [discriminate |].
  destruct (py_contains v k0) as [[] | e0] eqn:Hk0; cbn [bind] in H.
  - destruct (IH _ H) as (k & Hk & Hc). exists k. split; [right |]; assumption.
  - inversion H; subst. exists k0. split; [left; reflexivity | left; auto].
  - inversion H; subst. exists k0. split; [left; reflexivity | right; exact Hk0].
Qed.

Lemma validate_dict_ok : forall d,
  _validate_log_config (PDict d) = Ok tt <->
  forall k, In k required_keys -> dict_get d (KStr k) <> None.
Proof.
  intros d. unfold _validate_log_config.
  rewrite validate_keys_ok by (intros k _; simpl; eauto).
  split; intros H k Hk; specialize (H k Hk); simpl in *.
  - destruct (dict_get d (KStr k)); [discriminate | inversion H].
  - destruct (dict_get d (KStr k)); [reflexivity | contradiction].
Qed.

Lemma validate_dict_err : forall d e,
  _validate_log_config (PDict d) = Err e ->
  exists k, In k required_keys /\ dict_get d (KStr k) = None /\
    e = Exc "ValueError" ("Log config must include a " ++ k ++ ".").
Proof.
  intros d e H. destruct (validate_keys_err _ _ _ H) as (k & Hk & [[Hc He] | Hc]);
    simpl in Hc; [| discriminate].
  exists k. split; [exact Hk |]. split; [| exact He].
  destruct (dict_get d (KStr k)); [discriminate | reflexivity].
Qed.

(** [_validate_log_config] checks [key in log_config] for [level],
    [format], [file_path] in this order: a dict passes iff it has the
    three keys, and otherwise fails with [ValueError] naming a missing
    one; a [str] passes iff it contains the three words as substrings
    (it is not rejected for not being a dict); an [int] raises
    [TypeError]. *)
Theorem validate_log_config_spec :
  (forall d, _validate_log_config (PDict d) = Ok tt <->
             forall k, In k required_keys -> dict_get d (KStr k) <> None) /\
  (forall d e, _validate_log_config (PDict d) = Err e ->
     exists k, In k required_keys /\ dict_get d (KStr k) = None /\
       e = Exc "ValueError" ("Log config must include a " ++ k ++ ".")) /\
  (forall s, _validate_log_config (PStr s) = Ok tt <->
             forall k, In k required_keys -> str_contains k s = true) /\
  (forall z, _validate_log_config (PInt z)
             = Err (Exc "TypeError" "argument of type 'int' is not iterable")).
Proof.
  split; [exact validate_dict_ok |]. split; [exact validate_dict_err |].
  split; [| reflexivity].
  intros s. unfold _validate_log_config.
  rewrite validate_keys_ok by (intros k _; simpl; eauto).
  split; intros H k Hk; specialize (H k Hk); simpl in *.
  - inversion H; reflexivity.
  - rewrite H; reflexivity.
Qed.

Lemma validate_log_config_spec_witness :
  _validate_log_config (PStr "level, format, file_path") = Ok tt.
Proof.
  apply (proj2 (proj1 (proj2 (proj2 validate_log_config_spec)) _)).
  intros k Hk. simpl in Hk. repeat (destruct Hk as [<- | Hk]; [reflexivity |]). destruct Hk.
Defined.

(** A stored non-empty [log_config] dict lacking one of [level],
    [format], [file_path] makes [LogManager] fail at start with
    [ValueError]; the default is not written over it. *)
Theorem load_log_config_invalid : forall R key w d k,
  get_config R key w (KStr "log_config") = Ok (Some (PDict d)) -> d <> [] ->
  In k required_keys -> dict_get d (KStr k) = None ->
  exists k', In k' required_keys /\ dict_get d (KStr k') = None /\
    load_log_config_store R key w
    = Err (Exc "ValueError" ("Log config must include a " ++ k' ++ ".")).
Proof.
  intros R key w d k Hg Hne Hk Hd. unfold load_log_config_store. rewrite Hg. cbn [bind].
  destruct (_validate_log_config (PDict d)) as [[] | e] eqn:Hv.
  - exfalso. apply (proj1 (validate_dict_ok d) Hv k Hk Hd).
  - destruct (validate_dict_err _ _ Hv) as (k' & Hk' & Hd' & ->).
    exists k'. split; [exact Hk' |]. split; [exact Hd' |].
    destruct d as [| kv d]; [contradiction |]. simpl. rewrite Hv. reflexivity.
Qed.

Lemma load_log_config_invalid_witness :
  get_config log_runtime "k" debug_log_world (KStr "log_config")
    = Ok (Some (PDict [(KStr "level", PStr "DEBUG")])) /\
  exists k', In k' required_keys /\ dict_get [(KStr "level", PStr "DEBUG")] (KStr k') = None /\
    load_log_config_store log_runtime "k" debug_log_world
    = Err (Exc "ValueError" ("Log config must include a " ++ k' ++ ".")).
Proof.
  assert (Hg : get_config log_runtime "k" debug_log_world (KStr "log_config")
               = Ok (Some (PDict [(KStr "level", PStr "DEBUG")])))
    by (vm_compute; reflexivity).
  split; [exact Hg |].
  exact (load_log_config_invalid log_runtime "k" debug_log_world _ "format" Hg
           ltac:(discriminate) (or_intror (or_introl eq_refl)) eq_refl).
Defined.

(** When [load_config] returns [{}] (no file, or a file it cannot read),
    starting a [LogManager] rewrites the config file with the default
    [log_config] as its only key: every other stored entry is lost. *)
Theorem load_log_config_unreadable : forall R key w,
  writable R w = true -> load_config R key w = Ok [] ->
  exists tok n, load_log_config_store R key w
    = Ok (Build_World R (Some (doc_dump R [(KStr "log_config", PStr tok)])) true n,
          default_log_config).
Proof.
  intros R key w Hw Hl. unfold load_log_config_store, get_config. rewrite Hl. cbn [bind].
  simpl. destruct (update_config_from_empty R key w (KStr "log_config") default_log_config Hw Hl)
    as (tok & n & Hu).
  rewrite Hu. cbn [bind]. exists tok, n. reflexivity.
Qed.

Lemma load_log_config_unreadable_witness :
  writable sample_runtime
    (doc_world [(KStr "a", PStr "gAAAAABl"); (KStr "b", PStr "k:x: y: z")]) = true /\
  load_config sample_runtime "k"
    (doc_world [(KStr "a", PStr "gAAAAABl"); (KStr "b", PStr "k:x: y: z")]) = Ok [] /\
  exists tok n, load_log_config_store sample_runtime "k"
    (doc_world [(KStr "a", PStr "gAAAAABl"); (KStr "b", PStr "k:x: y: z")])
    = Ok (Build_World sample_runtime
            (Some (doc_dump sample_runtime [(KStr "log_config", PStr tok)])) true n,
          default_log_config).
Proof.
  assert (Hl : load_config sample_runtime "k"
    (doc_world [(KStr "a", PStr "gAAAAABl"); (KStr "b", PStr "k:x: y: z")]) = Ok [])
    by (vm_compute; reflexivity).
  split; [reflexivity |]. split; [exact Hl |].
  exact (load_log_config_unreadable sample_runtime "k"
           (doc_world [(KStr "a", PStr "gAAAAABl"); (KStr "b", PStr "k:x: y: z")]) eq_refl Hl).
Defined.

Lemma key_eqb_true_l : forall a b c, key_eqb a b = true -> key_eqb a c = key_eqb b c.
Proof.
  intros a b c Hab. destruct (key_eqb b c) eqn:Hbc.
  - exact (key_eqb_trans _ _ _ Hab Hbc).
  - destruct (key_eqb a c) eqn:Hac; [| reflexivity].
    rewrite key_eqb_sym in Hab. rewrite (key_eqb_trans _ _ _ Hab Hac) in Hbc. discriminate.
Qed.

(** Starting [LogManager] on a store that loads, holds no
    [log_config], and whose values all survive the second parse of
    [load_config] ([read_back] succeeds on each), writes the default; a
    second start reads it back (through [yaml.dump] and
    [yaml.safe_load]), validates it and writes nothing. Without the last
    condition the second start loads [{}] and rewrites the store. *)
Theorem load_log_config_restart : forall R key w m d',
  fernet_correct R -> doc_roundtrip R -> writable R w = true ->
  load_config R key w = Ok m -> dict_get m (KStr "log_config") = None ->
  (forall k v, dict_get m k = Some v -> exists x, read_back R v = Ok x) ->
  yaml_safe_load R (yaml_dump R default_log_config) = Some (PDict d') ->
  (forall k, dict_get d' k = dict_get default_log_items k) ->
  exists w1, load_log_config_store R key w = Ok (w1, default_log_config) /\
             load_log_config_store R key w1 = Ok (w1, PDict d').
Proof.
  intros R key w m d' Hf Hdoc Hw Hl Hm Hrb Hy Hd'.
  assert (Hnd : dict_nodup m) by (eapply load_config_nodup; exact Hl).
  destruct (update_config R key w (KStr "log_config") default_log_config) as [w1 | e] eqn:Hu.
  2:{ unfold update_config, save_config in Hu. rewrite Hl in Hu. discriminate. }
  exists w1. split.
  - unfold load_log_config_store, get_config. rewrite Hl. cbn [bind]. rewrite Hm.
    cbn [py_truthy]. rewrite Hu. reflexivity.
  - unfold update_config in Hu. rewrite Hl in Hu. cbn [bind] in Hu.
    assert (Hrd : read_back R default_log_config = Ok (PDict d')).
    { unfold read_back, parse_or_raw.
      change (str_data_of R default_log_config) with (yaml_dump R default_log_config).
      rewrite Hy. reflexivity. }
    assert (Hrb' : forall k x, dict_get (dict_update m (dict_set m (KStr "log_config")
                       default_log_config)) k = Some x -> exists y, read_back R x = Ok y).
    { rewrite dict_update_set_self by exact Hnd. intros k x Hx.
      rewrite dict_get_set in Hx. destruct (key_eqb k (KStr "log_config")).
      - inversion Hx; subst. eauto.
      - exact (Hrb _ _ Hx). }
    destruct (save_load_merge R key w m _ w1 Hf Hdoc Hw Hl Hu Hrb') as (m' & Hl1 & Hg).
    specialize (Hg (KStr "log_config")).
    rewrite dict_update_set_self, dict_get_set, key_eqb_refl in Hg by exact Hnd.
    destruct Hg as (x & Hx & Hm'). rewrite Hrd in Hx. inversion Hx; subst x.
    assert (Hv : _validate_log_config (PDict d') = Ok tt).
    { apply validate_dict_ok. intros k Hk. rewrite Hd'.
      simpl in Hk. repeat (destruct Hk as [<- | Hk]; [discriminate |]). destruct Hk. }
    assert (Hne : py_truthy (PDict d') = true).
    { specialize (Hd' (KStr "level")). destruct d'; [discriminate | reflexivity]. }
    unfold load_log_config_store, get_config. rewrite Hl1. cbn [bind]. rewrite Hm'.
    rewrite Hne. cbn [bind snd]. rewrite Hv. reflexivity.
Qed.

Lemma load_log_config_restart_witness :
  exists w1, load_log_config_store log_runtime "k" log_a1_world
               = Ok (w1, default_log_config) /\
             load_log_config_store log_runtime "k" w1 = Ok (w1, PDict default_log_items_sorted).
Proof.
  assert (Hl : load_config log_runtime "k" log_a1_world = Ok [(KStr "a", PInt 1)])
    by (vm_compute; reflexivity).
  apply (load_log_config_restart log_runtime "k" log_a1_world [(KStr "a", PInt 1)]
           default_log_items_sorted sample_fernet_correct sample_doc_roundtrip eq_refl
           Hl eq_refl).
  - intros k v H. apply dict_get_In in H. destruct H as [k' [E | []]].
    inversion E; subst. eexists; apply read_back_int.
  - reflexivity.
  - intros k. cbn [dict_get default_log_items_sorted default_log_items].
    destruct (key_eqb k (KStr "file_path")) eqn:E1;
      [rewrite ?(key_eqb_true_l _ _ _ E1); reflexivity |].
    destruct (key_eqb k (KStr "format")) eqn:E2;
      [rewrite ?(key_eqb_true_l _ _ _ E2); reflexivity |].
    reflexivity.
Defined.

(* ------------------------------------------------------------------ *)
(** ** More of the relational adapter *)

(** [update_data] also calls the missing [config_manager.encrypt]: with
    any non-empty [data] it raises [AttributeError] before a query runs. *)
Theorem update_data_raises : forall R key DB execute db n table data conditions,
  data <> [] ->
  update_data R key DB execute db n table data conditions = Err (attribute_error "encrypt").
Proof.
  intros R key DB execute db n table [| [c v] data] conditions Hne;
    [contradiction | reflexivity].
Qed.

Lemma update_data_raises_witness :
  [("email", PStr "new.email@example.com")] <> [] /\
  update_data sample_runtime "k" unit (fun db _ _ => Ok db) tt 0 "users"
    [("email", PStr "new.email@example.com")] [("name", SText "John Doe")]
  = Err (attribute_error "encrypt").
Proof.
  assert (Hne : [("email", PStr "new.email@example.com")] <> []) by discriminate.
  split; [exact Hne |]. exact (update_data_raises _ _ _ _ tt 0 "users" _ _ Hne).
Defined.

Lemma count_qmarks_app : forall a b, count_qmarks (a ++ b) = count_qmarks a + count_qmarks b.
Proof.
  induction a as [| c a IH]; intros b; simpl; [reflexivity |]. rewrite IH. lia.
Qed.

Lemma count_qmarks_join_and : forall l,
  (forall x, In x l -> count_qmarks x = 1) -> count_qmarks (join " AND " l) = List.length l.
Proof.
  induction l as [| x [| y l] IH]; intros H.
  - reflexivity.
  - simpl. apply H. left; reflexivity.
  - change (join " AND " (x :: y :: l)) with (x ++ " AND " ++ join " AND " (y :: l))%string.
    rewrite !count_qmarks_app, IH.
    + rewrite (H x (or_introl eq_refl)). reflexivity.
    + intros z Hz. apply H. right; exact Hz.
Qed.

Lemma join_map_names : forall (A : Type) (f : string -> string) sep (c1 c2 : list (string * A)),
  map fst c1 = map fst c2 ->
  join sep (map (fun kv => f (fst kv)) c1) = join sep (map (fun kv => f (fst kv)) c2).
Proof.
  intros A f sep c1 c2 H.
  replace (map (fun kv => f (fst kv)) c1) with (map f (map fst c1)) by (rewrite map_map; reflexivity).
  replace (map (fun kv => f (fst kv)) c2) with (map f (map fst c2)) by (rewrite map_map; reflexivity).
  rewrite H. reflexivity.
Qed.

(** [delete_data] never puts a condition value into the SQL text: the
    query depends on the table and the condition names only, holds one
    [?] per condition (when the names hold none), and the values are
    bound in order as its parameters. *)
Theorem delete_data_binds_values : forall DB execute (db : DB) table
  (conditions : list (string * sqlval)),
  count_qmarks table = 0 -> (forall kv, In kv conditions -> count_qmarks (fst kv) = 0) ->
  exists query,
    count_qmarks query = List.length conditions /\
    forall conditions' : list (string * sqlval), map fst conditions' = map fst conditions ->
      delete_data DB execute db table conditions' = execute db query (map snd conditions').
Proof.
  intros DB execute db table conditions Ht Hc.
  exists ("DELETE FROM " ++ table ++ " WHERE "
          ++ join " AND " (map (fun kv : string * sqlval => fst kv ++ "=?") conditions))%string.
  split.
  - rewrite !count_qmarks_app, Ht. simpl.
    rewrite count_qmarks_join_and, length_map; [reflexivity |].
    intros x Hx. apply in_map_iff in Hx. destruct Hx as ([k v] & <- & Hin).
    rewrite count_qmarks_app, (Hc _ Hin). reflexivity.
  - intros conditions' Hn. unfold delete_data.
    rewrite (join_map_names _ (fun k => k ++ "=?")%string " AND " conditions' conditions Hn).
    reflexivity.
Qed.

Lemma delete_data_binds_values_witness :
  exists query,
    count_qmarks query = 1 /\
    forall conditions' : list (string * sqlval), map fst conditions' = ["name"] ->
      delete_data unit (fun db _ _ => Ok db) tt "users" conditions'
      = (fun db _ _ => Ok db) tt query (map snd conditions').
Proof.
  apply (delete_data_binds_values unit (fun db _ _ => Ok db) tt "users"
           [("name", SText "John Doe")] eq_refl).
  intros kv [<- | []]. reflexivity.
Defined.

Lemma decrypt_row_plain : forall R dec cols row acc,
  Forall (fun v => forall b, v <> SBlob b) row ->
  exists d, decrypt_row R dec acc cols row = Ok d.
Proof.
  intros R dec; induction cols as [| c cols IH]; intros row acc Hrow; simpl.
  - eauto.
  - destruct row as [| v row]; [eauto |]. inversion Hrow as [| ? ? Hv Hrow']; subst.
    destruct v as [| z | s | b]; simpl; try apply IH; try exact Hrow'.
    exfalso. exact (Hv b eq_refl).
Qed.

Lemma decrypt_rows_plain : forall R dec cols rows,
  Forall (Forall (fun v => forall b, v <> SBlob b)) rows ->
  exists res, decrypt_rows_with R dec cols rows = Ok res.
Proof.
  intros R dec cols; induction rows as [| row rows IH]; intros H; simpl.
  - eauto.
  - inversion H as [| ? ? Hrow Hrows]; subst.
    destruct (decrypt_row_plain R dec cols row [] Hrow) as [d Hd]. rewrite Hd. cbn [bind].
    destruct (IH Hrows) as [res Hres]. rewrite Hres. cbn [bind]. eauto.
Qed.

(** On a table whose fetched values are never [bytes] (NULL, integers,
    text), [get_data] succeeds despite the missing [decrypt]: each row
    comes back as the dict from column name to its value unchanged. *)
Theorem get_data_plain_rows : forall R key DB table_info fetch db table conditions cols rows,
  NoDup cols -> table_info db table = Ok cols ->
  (forall q ps, fetch db q ps = Ok rows) ->
  Forall (Forall (fun v => forall b, v <> SBlob b)) rows ->
  exists res, get_data R key DB table_info fetch db table conditions = Ok res /\
    Forall2 (fun row d => forall i c v, nth_error cols i = Some c -> nth_error row i = Some v ->
                          dict_get d (KStr c) = Some (Raw v)) rows res.
Proof.
  intros R key DB table_info fetch db table conditions cols rows Hnd Ht Hf Hplain.
  unfold get_data. rewrite Ht. cbn [bind]. rewrite Hf. cbn [bind]. unfold _decrypt_rows.
  destruct (decrypt_rows_plain R (cm_decrypt_call R key "decrypt") cols rows Hplain)
    as [res Hres].
  exists res. split; [exact Hres |].
  assert (H2 := decrypt_rows_ok R _ _ _ _ Hres).
  clear Hres Hf. revert Hplain.
  induction H2 as [| row d rows res Hrow H2 IH]; intros Hplain; constructor.
  - inversion Hplain as [| r0 rs0 Hr Hrs]; subst.
    intros i c v Hc Hv.
    destruct (decrypt_row_at R _ _ _ _ _ _ _ _ Hnd Hrow Hc Hv) as (x & Hx & Hg).
    apply decrypt_value_ok in Hx. rewrite Hg.
    assert (Hnb : forall b, v <> SBlob b)
      by (rewrite Forall_forall in Hr; apply Hr; eapply nth_error_In; exact Hv).
    destruct v as [| z | s | b]; subst; try reflexivity. exfalso; exact (Hnb b eq_refl).
  - apply IH. inversion Hplain; assumption.
Qed.

Lemma get_data_plain_rows_witness :
  exists res, get_data sample_runtime "k" unit (fun _ _ => Ok ["id"; "name"])
                (fun _ _ _ => Ok [[SInt 1; SText "A"]; [SInt 2; SNull]]) tt "users" None = Ok res /\
    Forall2 (fun row d => forall i c v, nth_error ["id"; "name"] i = Some c ->
               nth_error row i = Some v -> dict_get d (KStr c) = Some (Raw v))
      [[SInt 1; SText "A"]; [SInt 2; SNull]] res.
Proof.
  apply get_data_plain_rows.
  - constructor; [simpl; intros [H | []]; discriminate |].
    constructor; [intros [] | constructor].
  - reflexivity.
  - reflexivity.
  - repeat constructor; intros b; discriminate.
Defined.

(* ------------------------------------------------------------------ *)
(** ** The salt of [ConfigManager.__init__] *)

Lemma list_ascii_of_fold_String : forall (f : nat -> ascii) l,
  list_ascii_of_string (fold_right (fun i acc => String (f i) acc) EmptyString l) = map f l.
Proof.
  intros f l; induction l as [| i l IH]; simpl; [reflexivity | now rewrite IH].
Qed.

Lemma uuid_byte_step : forall y : Z, (0 <= y)%Z ->
  (Z.shiftr y 8 * 256 + Z.land y 255 = y)%Z.
Proof.
  intros y Hy.
  change 255%Z with (Z.ones 8). rewrite Z.land_ones by lia.
  rewrite Z.shiftr_div_pow2 by lia. change (2 ^ 8)%Z with 256%Z.
  pose proof (Z.div_mod y 256 ltac:(lia)). lia.
Qed.

Lemma uuid_bytes_prefix : forall n k, (0 <= n < 2 ^ 128)%Z -> (k <= 16)%nat ->
  fold_left (fun acc c => acc * 256 + Z.of_N (N_of_ascii c))%Z
    (map (fun i => ascii_of_N (Z.to_N (Z.land (Z.shiftr n (8 * (15 - Z.of_nat i))) 255)))
       (seq 0 k)) 0%Z
  = Z.shiftr n (8 * (16 - Z.of_nat k)).
Proof.
  intros n k Hn; induction k as [| k IH]; intros Hk.
  - simpl. rewrite Z.shiftr_div_pow2 by lia. symmetry. apply Z.div_small. lia.
  - rewrite seq_S, map_app, fold_left_app. cbn [fold_left map Nat.add]. rewrite IH by lia.
    set (y := Z.shiftr n (8 * (15 - Z.of_nat k))).
    assert (Hy : (0 <= y)%Z) by (apply Z.shiftr_nonneg; lia).
    assert (Hb : (0 <= Z.land y 255 < 256)%Z).
    { change 255%Z with (Z.ones 8). rewrite Z.land_ones by lia.
      change (2 ^ 8)%Z with 256%Z. apply Z.mod_pos_bound. lia. }
    assert (Hb' : (Z.to_N (Z.land y 255) < 256)%N).
    { change 256%N with (Z.to_N 256). apply Z2N.inj_lt; lia. }
    rewrite (Ascii.N_ascii_embedding _ Hb'). rewrite Z2N.id by lia.
    assert (Hs : Z.shiftr n (8 * (16 - Z.of_nat k)) = Z.shiftr y 8).
    { unfold y. rewrite Z.shiftr_shiftr by lia. f_equal. lia. }
    rewrite Hs. rewrite uuid_byte_step by exact Hy.
    unfold y. f_equal. lia.
Qed.

Lemma bytes_int_uuid_bytes : forall n, (0 <= n < 2 ^ 128)%Z ->
  bytes_int (uuid_bytes n) = n.
Proof.
  intros n Hn. unfold bytes_int, uuid_bytes.
  rewrite list_ascii_of_fold_String.
  transitivity (Z.shiftr n (8 * (16 - Z.of_nat 16))).
  - apply uuid_bytes_prefix; lia.
  - reflexivity.
Qed.

(** [ConfigManager.__init__] takes as salt the 16 bytes of
    [uuid.UUID(int=uuid.getnode())]: for every node number below [2^128]
    the salt is 16 bytes long, and two different node numbers never give
    the same salt. *)
Theorem uuid_salt_injective : forall n1 n2,
  (0 <= n1 < 2 ^ 128)%Z -> (0 <= n2 < 2 ^ 128)%Z ->
  String.length (uuid_bytes n1) = 16%nat /\
  (uuid_bytes n1 = uuid_bytes n2 -> n1 = n2).
Proof.
  intros n1 n2 H1 H2. split.
  - reflexivity.
  - intros He. rewrite <- (bytes_int_uuid_bytes n1 H1), <- (bytes_int_uuid_bytes n2 H2).
    now rewrite He.
Qed.

Lemma uuid_salt_injective_witness :
  uuid_bytes 7 <> uuid_bytes 263 /\ String.length (uuid_bytes 7) = 16%nat.
Proof.
  split.
  - intros He. assert (H := proj2 (uuid_salt_injective 7 263 ltac:(lia) ltac:(lia)) He).
    discriminate H.
  - exact (proj1 (uuid_salt_injective 7 263 ltac:(lia) ltac:(lia))).
Defined.
